(** * NVONFeeder: the windowed permutation search of [feeder/nvonsim.py]

    A shallow embedding of the sequential core of the feeder: the statistics
    aggregator [processStats], the selector [getBest] and the seed chain of
    the main script, together with the properties of the specification that
    concern them.

    Conventions of the embedding.
    - A Python [dict] whose iteration order is observable (the three
      mappings built by [processStats]) is an association list in insertion
      order: assigning to a key that is present replaces its value in place,
      assigning to a new key appends it.
    - A JSON object read with [json.load] (a seed bundle) and the set of
      files the driver reads and writes are finite maps ([gmap]) with string
      keys; Python compares dicts by content, not by order.
    - Python's [int] is [Z].
    - A raised exception is a value of [exn]; a computation that may raise
      returns a [result]. *)

From Stdlib Require Import Ascii QArith.
From stdpp Require Import gmap strings list fin_maps sorting pretty.

Local Open Scope Z_scope.

(** ** Exceptions and the error monad *)

(** The exceptions the modelled code can raise, told apart by their type and
    message as Python reports them. *)
Inductive exn : Type :=
  | IndexError                      (* list index out of range *)
  | ValueError_int (s : string)     (* invalid literal for int() with base 10 *)
  | ValueError_float (s : string)   (* could not convert string to float *)
  | ValueError_min_empty            (* min() arg is an empty sequence *)
  | KeyError (k : Z)
  | UnboundLocalError               (* minTimeRunsPnt read before assignment *)
  | FileNotFoundError (path : string)
  | SystemExit (code : Z).          (* exit(code) *)

Inductive result (A : Type) : Type :=
  | Ok (a : A)
  | Raise (e : exn).
Arguments Ok {A} a.
Arguments Raise {A} e.

Global Instance result_ret : MRet result := fun A a => Ok a.
Global Instance result_bind : MBind result := fun A B f m =>
  match m with
  | Ok a => f a
  | Raise e => Raise e
  end.

(** The value of a computation, forgetting which exception it raised. *)
Definition value_of {A} (m : result A) : option A :=
  match m with
  | Ok a => Some a
  | Raise _ => None
  end.

(** [o] when it is defined, otherwise raise [e]. *)
Definition or_raise {A} (o : option A) (e : exn) : result A :=
  match o with
  | Some a => Ok a
  | None => Raise e
  end.

(** ** Insertion-ordered dictionaries *)

Section dict.
Context {K V : Type} `{EqDecision K}.

(** [d[k] = v] *)
Fixpoint dict_setitem (k : K) (v : V) (d : list (K * V)) : list (K * V) :=
  match d with
  | [] => [(k, v)]
  | (k', v') :: d' =>
      if decide (k' = k) then (k, v) :: d' else (k', v') :: dict_setitem k v d'
  end.

(** [d[k]], [None] standing for [KeyError] *)
Fixpoint dict_getitem (k : K) (d : list (K * V)) : option V :=
  match d with
  | [] => None
  | (k', v') :: d' => if decide (k' = k) then Some v' else dict_getitem k d'
  end.

(** [d.keys()] and [d.values()], in iteration order *)
Definition dict_keys (d : list (K * V)) : list K := d.*1.
Definition dict_values (d : list (K * V)) : list V := d.*2.

(** [for k, v in items: d[k] = v] *)
Definition dict_assign (d items : list (K * V)) : list (K * V) :=
  foldl (fun d kv => dict_setitem kv.1 kv.2 d) d items.

(** [OrderedDict(items)]: the items are assigned one after the other. *)
Definition OrderedDict (items : list (K * V)) : list (K * V) :=
  dict_assign [] items.
End dict.

(** [sorted(d.items())]. The items of a dict have pairwise distinct keys, so
    the comparison of two (key, value) tuples is decided by the keys; the sort
    is stable, as Python's is. *)
Fixpoint insert_item {V} (x : Z * V) (l : list (Z * V)) : list (Z * V) :=
  match l with
  | [] => [x]
  | y :: l' => if decide (x.1 ≤ y.1) then x :: l else y :: insert_item x l'
  end.

Definition sorted {V} (items : list (Z * V)) : list (Z * V) :=
  foldr insert_item [] items.

(** [min(values)] over integers *)
Definition py_min (values : list Z) : result Z :=
  match values with
  | [] => Raise ValueError_min_empty
  | v :: values' => Ok (foldl Z.min v values')
  end.

(** ** Raw results, window statistics *)

(** One element of the list returned by [startSim]: the pair
    [(id, result.stdout.split())] appended by [spawnProcess]. *)
Record raw : Type := Raw { rid : Z; out : list string }.

Section feeder.
(** The conversions [int(s)] and [float(s)] of the Python runtime on
    strings; [None] stands for [ValueError]. [U] is the type of floats. *)
Context {U : Type}.
Variable int_of : string → option Z.
Variable float_of : string → option U.

(** The dict [tStats] returned by [processStats], with its three keys. *)
Record tStats : Type := TStats {
  meanUtil : list (Z * U);
  totalSec : list (Z * Z);
  traceFile : list (Z * string)
}.

(** [l[i]] *)
Definition index (l : list string) (i : nat) : result string :=
  or_raise (l !! i) IndexError.

Definition py_int (s : string) : result Z := or_raise (int_of s) (ValueError_int s).
Definition py_float (s : string) : result U := or_raise (float_of s) (ValueError_float s).

(** The body of the loop of [processStats], on the three dicts under
    construction. [stat[0]] is already an integer, [int] leaves it as it
    is. *)
Definition processStat (acc : tStats) (stat : raw) : result tStats :=
  let id := rid stat in
  t1 ← index (out stat) 1;
  sec ← py_int t1;
  let totalSec' := dict_setitem id sec (totalSec acc) in
  t2 ← index (out stat) 2;
  util ← py_float t2;
  let meanUtil' := dict_setitem id util (meanUtil acc) in
  t0 ← index (out stat) 0;
  let traceFile' := dict_setitem id t0 (traceFile acc) in
  Ok (TStats meanUtil' totalSec' traceFile').

Fixpoint processLoop (acc : tStats) (stats : list raw) : result tStats :=
  match stats with
  | [] => Ok acc
  | stat :: stats' => acc' ← processStat acc stat; processLoop acc' stats'
  end.

Definition processStats (stats : list raw) : result tStats :=
  acc ← processLoop (TStats [] [] []) stats;
  let meanUtil' := OrderedDict (sorted (meanUtil acc)) in
  let totalSec' := OrderedDict (sorted (totalSec acc)) in
  Ok (TStats meanUtil' totalSec' (traceFile acc)).

(** The loop of [getBest]: the first key, in iteration order, whose value
    is the minimum. *)
Fixpoint first_with (m : Z) (items : list (Z * Z)) : option Z :=
  match items with
  | [] => None
  | (key, val) :: items' => if decide (val = m) then Some key else first_with m items'
  end.

Definition getBest (ts : tStats) : result (string * Z * Z) :=
  mintotalSec ← py_min (dict_values (totalSec ts));
  minTimeRunsPnt ← or_raise (first_with mintotalSec (totalSec ts)) UnboundLocalError;
  best ← or_raise (dict_getitem minTimeRunsPnt (traceFile ts)) (KeyError minTimeRunsPnt);
  Ok (best, mintotalSec, minTimeRunsPnt).

(** Aggregation followed by selection, as the main script chains them. *)
Definition best (stats : list raw) : result (string * Z * Z) :=
  traceStats ← processStats stats; getBest traceStats.

End feeder.

(** ** The seed chain of the main script *)

(** The files the driver reads and writes are the seed files: a path is
    either absent or holds a JSON object, a finite map from its keys to values
    of type [J]. A computation of the driver acts on these files and returns
    or raises; what it wrote before raising stays written. *)
Definition io (J A : Type) : Type :=
  gmap string (gmap string J) → gmap string (gmap string J) * result A.

Global Instance io_ret {J} : MRet (io J) := fun A a fs => (fs, Ok a).
Global Instance io_bind {J} : MBind (io J) := fun A B f m fs =>
  match m fs with
  | (fs', Ok a) => f a fs'
  | (fs', Raise e) => (fs', Raise e)
  end.

Section driver.
Context {U J : Type}.
Variable int_of : string → option Z.
Variable float_of : string → option U.
(** [os.sep] and the directory [tmp] of the run *)
Variable sep : string.
Variable tmp : string.

(** A pure computation inside the driver *)
Definition lift {A} (r : result A) : io J A := fun fs => (fs, r).

(** [os.path.exists(path)] *)
Definition path_exists (path : string) : io J bool :=
  fun fs => (fs, Ok (bool_decide (is_Some (fs !! path)))).

(** [with open(path) as f: json.load(f)] *)
Definition json_load (path : string) : io J (gmap string J) :=
  fun fs => (fs, or_raise (fs !! path) (FileNotFoundError path)).

(** [with open(path, "w") as f: json.dump(bundle, f)] *)
Definition json_dump (bundle : gmap string J) (path : string) : io J () :=
  fun fs => (<[path := bundle]> fs, Ok ()).

(** [exit(code)] *)
Definition exit {A} (code : Z) : io J A := fun fs => (fs, Raise (SystemExit code)).

(** [prev.update(next)]: every item of [next] is assigned in [prev]. *)
Definition dict_update (prev next : gmap string J) : gmap string J :=
  map_fold (fun k v d => <[k := v]> d) prev next.

(** [tmp+os.sep+"winInitTrace_"+str(n)+".json"] *)
Definition winInitTrace (n : nat) : string :=
  tmp +:+ sep +:+ "winInitTrace_" +:+ pretty n +:+ ".json".

(** Window 0, from the list [stats] that [startSim] returned to the seed
    file of window 1. The log and the graphs, written in between, are not part
    of the model. *)
Definition firstWindow (stats : list raw) : io J string :=
  traceStats ← lift (processStats int_of float_of stats);
  '(bestTrace, bTime, bpoint) ← lift (getBest traceStats);
  found ← path_exists bestTrace;
  nextWinInitTraces ← (if found : bool then json_load bestTrace else exit (-2));
  let nextWinInitTraceFile := winInitTrace 1 in
  json_dump nextWinInitTraces nextWinInitTraceFile;;
  mret nextWinInitTraceFile.

(** The body of the loop over the windows [i = 1 .. nrWindows-1]:
    [nextWinInitTraceFile] is the seed file the simulations of window [i]
    ran with, [stats] what [startSim] returned for them; the result is the
    seed file of window [i+1]. *)
Definition nextWindow (i : nat) (nextWinInitTraceFile : string) (stats : list raw)
    : io J string :=
  let prevWinInitTracesFile := nextWinInitTraceFile in
  traceStats ← lift (processStats int_of float_of stats);
  '(bestTrace, bTime, bpoint) ← lift (getBest traceStats);
  foundPrev ← path_exists prevWinInitTracesFile;
  prevWinInitTraces ←
    (if foundPrev : bool then json_load prevWinInitTracesFile else exit (-1));
  found ← path_exists bestTrace;
  nextWinInitTraces ← (if found : bool then json_load bestTrace else exit (-2));
  let nextWinInitTraces' := dict_update prevWinInitTraces nextWinInitTraces in
  let nextWinInitTraceFile' := winInitTrace (i + 1) in
  json_dump nextWinInitTraces' nextWinInitTraceFile';;
  mret nextWinInitTraceFile'.

(** The loop, over the results [runs] of the windows [i], [i+1], ... *)
Fixpoint nextWindows (i : nat) (nextWinInitTraceFile : string)
    (runs : list (list raw)) : io J string :=
  match runs with
  | [] => mret nextWinInitTraceFile
  | stats :: runs' =>
      nextWinInitTraceFile' ← nextWindow i nextWinInitTraceFile stats;
      nextWindows (S i) nextWinInitTraceFile' runs'
  end.

(** The main script from the first simulation on: [stats0] is what
    [startSim] returned for window 0 and [runs] what it returned for the
    windows [1 .. nrWindows-1], in this order. *)
Definition main (stats0 : list raw) (runs : list (list raw)) : io J string :=
  nextWinInitTraceFile ← firstWindow stats0;
  nextWindows 1 nextWinInitTraceFile runs.

(** *** Notions of the specification *)

(** The winning trace's bundle of a window: the JSON object held, in the
    files [fs], by the trace file that [getBest] selects from [stats]. *)
Definition winning (fs : gmap string (gmap string J)) (stats : list raw)
    : option (gmap string J) :=
  match best int_of float_of stats with
  | Ok (bestTrace, _, _) => fs !! bestTrace
  | Raise _ => None
  end.

(** The winning bundles of the windows [i], [i+1], ... of a run of the loop,
    each read in the files as they are when its window is processed. *)
Fixpoint winners (i : nat) (nextWinInitTraceFile : string) (runs : list (list raw))
    (fs : gmap string (gmap string J)) : list (gmap string J) :=
  match runs with
  | [] => []
  | stats :: runs' =>
      match winning fs stats, nextWindow i nextWinInitTraceFile stats fs with
      | Some bundle, (fs', Ok nextWinInitTraceFile') =>
          bundle :: winners (S i) nextWinInitTraceFile' runs' fs'
      | _, _ => []
      end
  end.

End driver.

(** *** Notions of the specification on raw results *)

Section readings.
Context {U : Type}.
Variable int_of : string → option Z.
Variable float_of : string → option U.

(** What a captured output in the expected format reports: at least three
    tokens, a path, an integer total time and a floating-point utilization.
    [None] when the output does not conform. *)
Definition reading (stat : raw) : option (string * Z * U) :=
  t0 ← out stat !! 0%nat;
  t1 ← out stat !! 1%nat;
  sec ← int_of t1;
  t2 ← out stat !! 2%nat;
  util ← float_of t2;
  Some (t0, sec, util).

(** The items the conforming raw results contribute to each mapping. *)
Definition utilItems (stats : list raw) : list (Z * U) :=
  omap (fun stat => r ← reading stat; Some (rid stat, r.2)) stats.
Definition secItems (stats : list raw) : list (Z * Z) :=
  omap (fun stat => r ← reading stat; Some (rid stat, r.1.2)) stats.
Definition fileItems (stats : list raw) : list (Z * string) :=
  omap (fun stat => r ← reading stat; Some (rid stat, r.1.1)) stats.
(** The three dicts at the end of the loop of [processStats], when every raw
    result conforms. *)
Definition collected (stats : list raw) : tStats :=
  TStats (dict_assign [] (utilItems stats))
         (dict_assign [] (secItems stats))
         (dict_assign [] (fileItems stats)).
End readings.

(** The order in which keys are first seen. *)
Definition see (seen : list Z) (k : Z) : list Z :=
  if decide (k ∈ seen) then seen else seen ++ [k].

Definition first_seen (keys : list Z) : list Z := foldl see [] keys.

(** The exceptions a captured output that does not conform raises in the
    aggregator. *)
Definition parse_error (e : exn) : Prop :=
  e = IndexError ∨ (∃ s, e = ValueError_int s) ∨ (∃ s, e = ValueError_float s).

(** The order [sorted] puts the items in. *)
Definition key_le {V} (x y : Z * V) : Prop := x.1 ≤ y.1.

(** The WindowStats of the specification, as far as the code provides them:
    total time and mean utilization are ordered by run identifier ascending,
    and the three mappings have the same key set. *)
Definition WindowStats {U} (ts : @tStats U) : Prop :=
  StronglySorted Z.lt (dict_keys (totalSec ts)) ∧
  StronglySorted Z.lt (dict_keys (meanUtil ts)) ∧
  NoDup (dict_keys (traceFile ts)) ∧
  list_to_set (dict_keys (meanUtil ts)) =@{gset Z} list_to_set (dict_keys (totalSec ts)) ∧
  list_to_set (dict_keys (traceFile ts)) =@{gset Z} list_to_set (dict_keys (totalSec ts)).

(** ** Decimal literals

    An instance of the conversions for the examples: [int] and [float] on
    plain ASCII decimal literals, an optional sign and digits, for [float]
    with an optional fractional part; the float is kept as the exact
    rational the literal denotes. *)

Definition digit (a : ascii) : option Z :=
  let n := Z.of_nat (nat_of_ascii a) in
  if decide (48 ≤ n ≤ 57) then Some (n - 48) else None.

Fixpoint digits (acc : Z) (s : string) : option Z :=
  match s with
  | EmptyString => Some acc
  | String a s' => d ← digit a; digits (10 * acc + d) s'
  end.

Definition unsigned_literal (s : string) : option Z :=
  match s with
  | EmptyString => None
  | _ => digits 0 s
  end.

Definition signed {A} (neg : A → A) (unsigned : string → option A) (s : string)
    : option A :=
  match s with
  | String "-"%char s' => neg <$> unsigned s'
  | String "+"%char s' => unsigned s'
  | _ => unsigned s
  end.

Definition int_literal : string → option Z := signed Z.opp unsigned_literal.

Fixpoint split_dot (s : string) : string * option string :=
  match s with
  | EmptyString => (EmptyString, None)
  | String a s' =>
      if decide (a = "."%char) then (EmptyString, Some s')
      else let '(i, f) := split_dot s' in (String a i, f)
  end.

Definition unsigned_float (s : string) : option Q :=
  match split_dot s with
  | (i, None) => n ← unsigned_literal i; Some (inject_Z n)
  | (i, Some f) =>
      n ← unsigned_literal i;
      m ← unsigned_literal f;
      let scale := Pos.pow 10 (Pos.of_nat (String.length f)) in
      Some (Qmake (n * Z.pos scale + m) scale)
  end.

Definition float_literal : string → option Q := signed Qopp unsigned_float.


(** ** The worker invocations of a window *)

(** The arguments [startSim] hands to [pool.apply_async] for one trace, the
    lock and the shared list apart: those of [spawnProcess]. *)
Record task : Type := Task {
  tracefile : string;
  initTrace : string;
  tid : Z;
  pathResults : string
}.

Section startSim.
(** [os.path.join] and [sys.executable] *)
Variable path_join : string → string → string.
Variable executable : string.

(** The command line [exec] that [spawnProcess] runs. *)
Definition spawnProcess_exec (tracefile initTrace pathResults : string)
    : list string :=
  let exec := [executable; "main.py"; "-t"; tracefile; "-f"; pathResults] in
  if decide (String.length initTrace ≠ 0%nat)
  then (exec ++ ["-i"]) ++ [initTrace]
  else exec.

(** The loop of [startSim], from the value [id] of its counter on: the
    tasks it submits, in the order of submission. *)
Fixpoint startSim_loop (runDir winInitTrace pathResults : string) (id : Z)
    (traces : list string) : list task :=
  match traces with
  | [] => []
  | trace :: traces' =>
      let tracefullname := path_join runDir trace in
      Task tracefullname winInitTrace id pathResults
        :: startSim_loop runDir winInitTrace pathResults (id + 1) traces'
  end.

Definition startSim_tasks (runDir : string) (traces : list string)
    (winInitTrace pathResults : string) : list task :=
  startSim_loop runDir winInitTrace pathResults 0 traces.
End startSim.

(** ** The results directory and the log of a window *)

Section window_paths.
(** [os.sep], the directory [results] of the run, [workloadInfo['winDirPrefix']]
    and [policyName] *)
Variable sep results winDirPrefix policyName : string.



End window_paths.

(** *** Notions for the properties of the aggregator *)

Section last_reading.
Context {U : Type}.
Variable int_of : string → option Z.
Variable float_of : string → option U.

(** What the last raw result with run identifier [k] reports. *)
Definition last_reading (k : Z) (stats : list raw) : option (string * Z * U) :=
  last (filter (fun stat => rid stat = k) stats) ≫= reading int_of float_of.
End last_reading.

(** ** The scenarios of the specification *)

(** A window of three traces, total times 42, 17 and 17 for the runs 0, 1
    and 2: the raw results in the order of the run identifiers and in
    another order of arrival, and the statistics of the window. *)
Definition three_runs : list raw :=
  [Raw 0 ["p0.json"; "42"; "0.61"];
   Raw 1 ["p1.json"; "17"; "0.83"];
   Raw 2 ["p2.json"; "17"; "0.79"]].

Definition three_runs_late : list raw :=
  [Raw 2 ["p2.json"; "17"; "0.79"];
   Raw 0 ["p0.json"; "42"; "0.61"];
   Raw 1 ["p1.json"; "17"; "0.83"]].

Definition three_runs_stats : @tStats Q :=
  TStats [(0, (61 # 100)%Q); (1, (83 # 100)%Q); (2, (79 # 100)%Q)]
         [(0, 42); (1, 17); (2, 17)]
         [(2, "p2.json"); (0, "p0.json"); (1, "p1.json")].

(** A window of two runs, the second of which printed no utilization. *)
Definition short_output : list raw :=
  [Raw 0 ["p0.json"; "42"; "0.61"]; Raw 1 ["p1.json"; "17"]].

(** Two sequential windows of one run each: the trace that wins window 0
    holds the bundle [{"j1": "A"}], the one that wins window 1 the bundle
    [{"j2": "B"}]. *)
Definition two_windows_files : gmap string (gmap string string) :=
  <["a.json" := {["j1" := "A"]}]> (<["b.json" := {["j2" := "B"]}]> ∅).

Definition window0 : list raw := [Raw 0 ["a.json"; "10"; "0.5"]].
Definition window1 : list raw := [Raw 0 ["b.json"; "12"; "0.5"]].

(** Statistics whose total times are not ordered by run identifier and whose
    trace-file mapping lacks the run that comes first with the minimum. *)
Definition unsorted_stats : @tStats Q :=
  TStats [] [(2, 17); (0, 42); (1, 17)] [(0, "p0.json"); (1, "p1.json")].

(** Two raw results with the same run identifier. *)
Definition same_id_twice : list raw :=
  [Raw 0 ["a.json"; "10"; "0.5"]; Raw 0 ["b.json"; "12"; "0.5"]].


(** * Properties *)

(** ** Facts about dictionaries *)

Section dict_facts.
Context {K V : Type} `{EqDecision K}.
Implicit Types (d : list (K * V)) (k : K) (v : V).

Lemma dict_getitem_setitem k k' v d :
  dict_getitem k' (dict_setitem k v d) =
    if decide (k = k') then Some v else dict_getitem k' d.
Proof.
  induction d as [|[k0 v0] d IH]; simpl.
  - repeat case_decide; congruence.
  - destruct (decide (k0 = k)) as [->|Hne]; simpl.
    + repeat case_decide; congruence.
    + rewrite IH. repeat case_decide; congruence.
Qed.

Lemma dict_getitem_Some k v d : dict_getitem k d = Some v → (k, v) ∈ d.
Proof.
  induction d as [|[k0 v0] d IH]; simpl; [done|].
  case_decide as Hk; [intros [= ->]; rewrite Hk; left | intros; right; auto].
Qed.

Lemma dict_getitem_None k d : dict_getitem k d = None ↔ k ∉ dict_keys d.
Proof.
  unfold dict_keys. induction d as [|[k0 v0] d IH]; simpl.
  - split; [intros _; apply not_elem_of_nil | done].
  - rewrite not_elem_of_cons. destruct (decide (k0 = k)); [|rewrite IH]; intuition congruence.
Qed.

Lemma dict_getitem_is_Some k d : is_Some (dict_getitem k d) ↔ k ∈ dict_keys d.
Proof.
  rewrite <- not_eq_None_Some, dict_getitem_None.
  destruct (decide (k ∈ dict_keys d)); tauto.
Qed.

Lemma dict_getitem_elem_of k v d :
  NoDup (dict_keys d) → (k, v) ∈ d → dict_getitem k d = Some v.
Proof.
  unfold dict_keys. induction d as [|[k0 v0] d IH]; simpl.
  - intros _ Hin. by apply elem_of_nil in Hin.
  - intros [Hk0 Hnd]%NoDup_cons [[= -> ->]|Hin]%elem_of_cons.
    + by rewrite decide_True.
    + rewrite decide_False; [auto|].
      intros ->. apply Hk0. apply list_elem_of_fmap. by exists (k, v).
Qed.

(** Assigning to a new key appends it, assigning to a known key keeps the
  order of the keys. *)
Lemma dict_setitem_new k v d : k ∉ dict_keys d → dict_setitem k v d = d ++ [(k, v)].
Proof.
  unfold dict_keys. induction d as [|[k0 v0] d IH]; simpl; [done|].
  intros [Hne Hk]%not_elem_of_cons. rewrite decide_False by done. by rewrite IH.
Qed.

Lemma dict_keys_setitem k v d :
  dict_keys (dict_setitem k v d) =
    if decide (k ∈ dict_keys d) then dict_keys d else dict_keys d ++ [k].
Proof.
  destruct (decide (k ∈ dict_keys d)) as [Hin|Hin].
  - unfold dict_keys in *. induction d as [|[k0 v0] d IH]; simpl.
    + by apply elem_of_nil in Hin.
    + destruct (decide (k0 = k)) as [->|Hne]; simpl; [done|].
      apply elem_of_cons in Hin as [?|?]; [simpl in *; congruence|].
      f_equal. by apply IH.
  - rewrite dict_setitem_new by done. unfold dict_keys. by rewrite fmap_app.
Qed.

Lemma dict_keys_setitem_NoDup k v d :
  NoDup (dict_keys d) → NoDup (dict_keys (dict_setitem k v d)).
Proof.
  intros Hnd. rewrite dict_keys_setitem. case_decide; [done|].
  apply NoDup_app. split_and!; [done | | apply NoDup_singleton].
  intros x Hx ->%list_elem_of_singleton. done.
Qed.

Lemma elem_of_dict_keys_setitem k k' v d :
  k' ∈ dict_keys (dict_setitem k v d) ↔ k' = k ∨ k' ∈ dict_keys d.
Proof.
  rewrite dict_keys_setitem. case_decide.
  - intuition congruence.
  - rewrite elem_of_app, list_elem_of_singleton. tauto.
Qed.

(** A list of items with distinct keys is the dict built from it. *)
Lemma dict_assign_NoDup (d items : list (K * V)) :
  NoDup (dict_keys (d ++ items)) → dict_assign d items = d ++ items.
Proof.
  unfold dict_assign.
  revert d. induction items as [|[k v] items IH]; intros d Hnd; simpl.
  - by rewrite app_nil_r.
  - rewrite dict_setitem_new.
    + rewrite IH; rewrite <- app_assoc; done.
    + unfold dict_keys in *. rewrite fmap_app in Hnd.
      apply NoDup_app in Hnd as (_ & Hdis & _).
      intros Hin. apply (Hdis k Hin). simpl. left.
Qed.

Lemma OrderedDict_NoDup (items : list (K * V)) :
  NoDup (dict_keys items) → OrderedDict items = items.
Proof. intros Hnd. unfold OrderedDict. by rewrite dict_assign_NoDup. Qed.
End dict_facts.

(** ** Facts about [sorted] *)

Section sorted_facts.
Context {V : Type}.
Implicit Types (x : Z * V) (l : list (Z * V)).

Lemma insert_item_Permutation x l : insert_item x l ≡ₚ x :: l.
Proof.
  induction l as [|y l IH]; simpl; [done|].
  case_decide; [done|]. rewrite IH. apply Permutation_swap.
Qed.

Lemma sorted_Permutation l : sorted l ≡ₚ l.
Proof.
  induction l as [|x l IH]; simpl; [done|].
  by rewrite insert_item_Permutation, IH.
Qed.

Lemma insert_item_StronglySorted x l :
  StronglySorted key_le l → StronglySorted key_le (insert_item x l).
Proof.
  induction 1 as [|y l Hl IH Hy]; simpl.
  - repeat constructor.
  - case_decide as Hxy.
    + constructor; [by constructor|]. constructor; [done|].
      eapply Forall_impl; [exact Hy|]. unfold key_le. intros; lia.
    + constructor; [done|]. rewrite insert_item_Permutation.
      constructor; [unfold key_le; lia | done].
Qed.

Lemma sorted_StronglySorted l : StronglySorted key_le (sorted l).
Proof.
  induction l as [|x l IH]; simpl; [constructor|].
  by apply insert_item_StronglySorted.
Qed.

Lemma sorted_keys_NoDup l : NoDup (dict_keys l) → NoDup (dict_keys (sorted l)).
Proof. unfold dict_keys. by rewrite sorted_Permutation. Qed.

(** With distinct keys the keys of a sorted list strictly increase. *)
Lemma StronglySorted_keys_lt l :
  StronglySorted key_le l → NoDup (dict_keys l) → StronglySorted Z.lt (dict_keys l).
Proof.
  unfold dict_keys. induction 1 as [|y l Hl IH Hy]; simpl; [constructor|].
  intros [Hin Hnd]%NoDup_cons. constructor; [auto|].
  apply Forall_fmap, Forall_forall. intros z Hz. simpl.
  rewrite Forall_forall in Hy. specialize (Hy z Hz). unfold key_le in Hy.
  assert (y.1 ≠ z.1); [|lia].
  intros Heq. apply Hin. rewrite Heq. apply list_elem_of_fmap. by exists z.
Qed.

Lemma sorted_keys_lt l :
  NoDup (dict_keys l) → StronglySorted Z.lt (dict_keys (sorted l)).
Proof.
  intros Hnd. apply StronglySorted_keys_lt;
    [apply sorted_StronglySorted | by apply sorted_keys_NoDup].
Qed.

(** Two items of a list with distinct keys that have the same key are the
    same item. *)
Lemma NoDup_keys_inj l x y :
  NoDup (dict_keys l) → x ∈ l → y ∈ l → x.1 = y.1 → x = y.
Proof.
  unfold dict_keys. induction l as [|z l IH]; simpl.
  - intros _ Hx. by apply elem_of_nil in Hx.
  - intros [Hz Hnd]%NoDup_cons [->|Hx]%elem_of_cons [->|Hy]%elem_of_cons Heq; auto.
    + exfalso. apply Hz. rewrite Heq. apply list_elem_of_fmap. by exists y.
    + exfalso. apply Hz. rewrite <- Heq. apply list_elem_of_fmap. by exists x.
Qed.

(** The order in which the items arrive does not show after [sorted]. *)
Lemma sorted_Permutation_eq l1 l2 :
  NoDup (dict_keys l1) → l1 ≡ₚ l2 → sorted l1 = sorted l2.
Proof.
  intros Hnd Hperm.
  apply (StronglySorted_unique_strong key_le);
    [|apply sorted_StronglySorted..|by rewrite !sorted_Permutation].
  intros x y Hx Hy Hxy Hyx. unfold key_le in *.
  apply (NoDup_keys_inj l1); [done| | |lia].
  - by rewrite <- (sorted_Permutation l1).
  - by rewrite Hperm, <- (sorted_Permutation l2).
Qed.
End sorted_facts.

(** ** Keys in order of first appearance *)

Lemma foldl_see_NoDup seen keys : NoDup seen → NoDup (foldl see seen keys).
Proof.
  revert seen. induction keys as [|k keys IH]; intros seen Hnd; simpl; [done|].
  apply IH. unfold see. case_decide as Hin; [done|].
  apply NoDup_app. split_and!; [done | | apply NoDup_singleton].
  intros x Hx ->%list_elem_of_singleton. done.
Qed.

Lemma elem_of_foldl_see seen keys k :
  k ∈ foldl see seen keys ↔ k ∈ seen ∨ k ∈ keys.
Proof.
  revert seen. induction keys as [|k' keys IH]; intros seen; simpl.
  - rewrite elem_of_nil. tauto.
  - rewrite IH, elem_of_cons. unfold see. case_decide as Hin.
    + intuition congruence.
    + rewrite elem_of_app, list_elem_of_singleton. tauto.
Qed.

Lemma foldl_see_fresh seen keys :
  NoDup (seen ++ keys) → foldl see seen keys = seen ++ keys.
Proof.
  revert seen. induction keys as [|k keys IH]; intros seen Hnd; simpl.
  - by rewrite app_nil_r.
  - assert (k ∉ seen) as Hk.
    { apply NoDup_app in Hnd as (_ & Hdis & _). intros Hin. apply (Hdis k Hin). left. }
    unfold see. rewrite decide_False by done.
    rewrite IH; rewrite <- app_assoc; done.
Qed.

Lemma first_seen_NoDup keys : NoDup keys → first_seen keys = keys.
Proof. intros Hnd. unfold first_seen. by rewrite foldl_see_fresh. Qed.

Lemma dict_keys_assign {V} (d items : list (Z * V)) :
  dict_keys (dict_assign d items) = foldl see (dict_keys d) (dict_keys items).
Proof.
  unfold dict_assign. revert d.
  induction items as [|[k v] items IH]; intros d; simpl; [done|].
  rewrite IH. f_equal. apply dict_keys_setitem.
Qed.

Lemma dict_keys_OrderedDict {V} (items : list (Z * V)) :
  dict_keys (OrderedDict items) = first_seen (dict_keys items).
Proof. apply dict_keys_assign. Qed.

(** ** The aggregator *)

Section process_facts.
Context {U : Type}.
Variable int_of : string → option Z.
Variable float_of : string → option U.

Lemma processStat_Some acc stat t0 sec util :
  reading int_of float_of stat = Some (t0, sec, util) →
  processStat int_of float_of acc stat =
    Ok (TStats (dict_setitem (rid stat) util (meanUtil acc))
               (dict_setitem (rid stat) sec (totalSec acc))
               (dict_setitem (rid stat) t0 (traceFile acc))).
Proof.
  unfold reading, processStat, index, py_int, py_float.
  destruct (out stat) as [|a [|b [|c l]]]; simpl; try done.
  - destruct (int_of b); done.
  - destruct (int_of b); simpl; [|done].
    destruct (float_of c); simpl; [|done]. by intros [= -> -> ->].
Qed.

Lemma processStat_None acc stat :
  reading int_of float_of stat = None →
  ∃ e, processStat int_of float_of acc stat = Raise e ∧ parse_error e.
Proof.
  unfold reading, processStat, index, py_int, py_float, parse_error.
  destruct (out stat) as [|a [|b [|c l]]]; simpl; intros Hr.
  - eauto.
  - eauto.
  - destruct (int_of b); simpl; eauto 6.
  - destruct (int_of b); simpl; [|eauto 6].
    destruct (float_of c); simpl; [done|eauto 6].
Qed.

Lemma processLoop_Forall stats acc :
  Forall (fun stat => is_Some (reading int_of float_of stat)) stats →
  processLoop int_of float_of acc stats =
    Ok (TStats (dict_assign (meanUtil acc) (utilItems int_of float_of stats))
               (dict_assign (totalSec acc) (secItems int_of float_of stats))
               (dict_assign (traceFile acc) (fileItems int_of float_of stats))).
Proof.
  revert acc. induction stats as [|stat stats IH]; intros acc Hall; simpl.
  - by destruct acc.
  - apply Forall_cons in Hall as [[[[t0 sec] util] Hr] Hall].
    rewrite (processStat_Some _ _ _ _ _ Hr). simpl.
    rewrite IH by done. unfold utilItems, secItems, fileItems. simpl.
    by rewrite Hr.
Qed.

Lemma processLoop_Exists stats acc :
  Exists (fun stat => reading int_of float_of stat = None) stats →
  ∃ e, processLoop int_of float_of acc stats = Raise e ∧ parse_error e.
Proof.
  revert acc. induction stats as [|stat stats IH]; intros acc Hex; simpl.
  - by apply Exists_nil in Hex.
  - destruct (reading int_of float_of stat) as [[[t0 sec] util]|] eqn:Hr.
    + rewrite (processStat_Some _ _ _ _ _ Hr). simpl. apply IH.
      apply Exists_cons in Hex as [?|?]; [congruence|done].
    + destruct (processStat_None acc stat Hr) as (e & -> & He). simpl. eauto.
Qed.

Lemma conforming_or_not stats :
  Forall (fun stat => is_Some (reading int_of float_of stat)) stats ∨
  Exists (fun stat => reading int_of float_of stat = None) stats.
Proof.
  induction stats as [|stat stats [IH|IH]]; [by left | | by right; right].
  destruct (reading int_of float_of stat) eqn:Hr.
  - left. constructor; [by rewrite Hr | done].
  - right. by left.
Qed.

(** The keys the conforming results contribute are their run identifiers. *)
Lemma items_keys stats :
  Forall (fun stat => is_Some (reading int_of float_of stat)) stats →
  dict_keys (utilItems int_of float_of stats) = rid <$> stats ∧
  dict_keys (secItems int_of float_of stats) = rid <$> stats ∧
  dict_keys (fileItems int_of float_of stats) = rid <$> stats.
Proof.
  unfold dict_keys, utilItems, secItems, fileItems.
  induction 1 as [|stat stats [r Hr] _ (IH1 & IH2 & IH3)]; simpl; [done|].
  rewrite Hr. simpl. split_and!; f_equal; assumption.
Qed.

Lemma collected_keys stats :
  Forall (fun stat => is_Some (reading int_of float_of stat)) stats →
  dict_keys (meanUtil (collected int_of float_of stats)) = first_seen (rid <$> stats) ∧
  dict_keys (totalSec (collected int_of float_of stats)) = first_seen (rid <$> stats) ∧
  dict_keys (traceFile (collected int_of float_of stats)) = first_seen (rid <$> stats).
Proof.
  intros (H1 & H2 & H3)%items_keys. unfold collected. simpl.
  rewrite !dict_keys_assign, H1, H2, H3. done.
Qed.

Lemma first_seen_rid_NoDup stats : NoDup (first_seen (rid <$> stats)).
Proof. apply foldl_see_NoDup, NoDup_nil_2. Qed.

(** What [processStats] returns, and when. *)
Lemma processStats_Forall stats :
  Forall (fun stat => is_Some (reading int_of float_of stat)) stats →
  processStats int_of float_of stats =
    Ok (TStats (sorted (meanUtil (collected int_of float_of stats)))
               (sorted (totalSec (collected int_of float_of stats)))
               (traceFile (collected int_of float_of stats))).
Proof.
  intros Hall. unfold processStats.
  destruct (collected_keys stats Hall) as (H1 & H2 & _).
  pose proof (first_seen_rid_NoDup stats) as Hnd.
  rewrite processLoop_Forall by done.
  change (TStats (dict_assign _ _) (dict_assign _ _) (dict_assign _ _))
    with (collected int_of float_of stats).
  unfold mbind, result_bind.
  rewrite !OrderedDict_NoDup; [done|apply sorted_keys_NoDup..].
  - by rewrite H2.
  - by rewrite H1.
Qed.

Lemma processStats_Exists stats :
  Exists (fun stat => reading int_of float_of stat = None) stats →
  ∃ e, processStats int_of float_of stats = Raise e ∧ parse_error e.
Proof.
  intros Hex. unfold processStats.
  destruct (processLoop_Exists stats (TStats [] [] []) Hex) as (e & -> & He).
  simpl. eauto.
Qed.

Lemma processStats_Ok stats ts :
  processStats int_of float_of stats = Ok ts →
  Forall (fun stat => is_Some (reading int_of float_of stat)) stats ∧
  ts = TStats (sorted (meanUtil (collected int_of float_of stats)))
              (sorted (totalSec (collected int_of float_of stats)))
              (traceFile (collected int_of float_of stats)).
Proof.
  intros Hok. destruct (conforming_or_not stats) as [Hall|Hex].
  - split; [done|]. rewrite processStats_Forall in Hok by done. congruence.
  - destruct (processStats_Exists stats Hex) as (e & He & _). congruence.
Qed.

End process_facts.

(** ** The selector *)

Lemma StronglySorted_lt_NoDup (l : list Z) : StronglySorted Z.lt l → NoDup l.
Proof.
  induction 1 as [|x l _ IH Hx]; constructor; [|done].
  intros Hin. rewrite Forall_forall in Hx. specialize (Hx x Hin). lia.
Qed.

Lemma foldl_min_le (l : list Z) (v : Z) : foldl Z.min v l ≤ v.
Proof.
  revert v. induction l as [|x l IH]; intros v; simpl; [lia|].
  specialize (IH (Z.min v x)). lia.
Qed.

Lemma foldl_min_lower (l : list Z) (v x : Z) : x ∈ l → foldl Z.min v l ≤ x.
Proof.
  revert v. induction l as [|y l IH]; intros v Hin; simpl.
  - by apply elem_of_nil in Hin.
  - apply elem_of_cons in Hin as [->|Hin]; [|by apply IH].
    pose proof (foldl_min_le l (Z.min v y)). lia.
Qed.

Lemma foldl_min_elem_of (l : list Z) (v : Z) : foldl Z.min v l ∈ v :: l.
Proof.
  revert v. induction l as [|y l IH]; intros v; simpl; [left|].
  specialize (IH (Z.min v y)). apply elem_of_cons in IH as [Heq|Hin].
  - rewrite Heq. destruct (Z.min_spec v y) as [[_ ->]|[_ ->]]; [left | right; left].
  - by do 2 right.
Qed.

(** [min] of a non-empty list of integers is one of them and a lower bound. *)
Lemma py_min_Ok (values : list Z) :
  values ≠ [] →
  ∃ m, py_min values = Ok m ∧ m ∈ values ∧ ∀ v, v ∈ values → m ≤ v.
Proof.
  destruct values as [|v values]; [done|]. intros _. simpl.
  eexists; split_and!; [done | apply foldl_min_elem_of |].
  intros x [->|Hin]%elem_of_cons; [apply foldl_min_le | by apply foldl_min_lower].
Qed.

(** The loop of [getBest] stops at the first item that has the minimum. *)
Lemma first_with_Some (m : Z) (items : list (Z * Z)) :
  m ∈ dict_values items →
  ∃ key before after,
    first_with m items = Some key ∧
    items = before ++ (key, m) :: after ∧
    m ∉ dict_values before.
Proof.
  unfold dict_values. induction items as [|[k v] items IH]; simpl.
  - intros Hin. by apply elem_of_nil in Hin.
  - intros Hin. destruct (decide (v = m)) as [->|Hne].
    + exists k, [], items. split_and!; [done..|]. simpl. apply not_elem_of_nil.
    + apply elem_of_cons in Hin as [?|Hin]; [congruence|].
      destruct (IH Hin) as (key & before & after & Hf & -> & Hbefore).
      exists key, ((k, v) :: before), after. split_and!; [done..|].
      simpl. rewrite not_elem_of_cons. split; [congruence|done].
Qed.

Section select_facts.
Context {U : Type}.
Implicit Types ts : @tStats U.

(** [getBest] on statistics with at least one entry. *)
Lemma getBest_WindowStats ts :
  WindowStats ts →
  totalSec ts ≠ [] →
  ∃ file time id,
    getBest ts = Ok (file, time, id) ∧
    dict_getitem id (totalSec ts) = Some time ∧
    (∀ k v, dict_getitem k (totalSec ts) = Some v → time ≤ v) ∧
    (∀ k, dict_getitem k (totalSec ts) = Some time → id ≤ k) ∧
    dict_getitem id (traceFile ts) = Some file.
Proof.
  intros (Hsorted & _ & _ & _ & Hkeys) Hne.
  pose proof (StronglySorted_lt_NoDup _ Hsorted) as Hnd.
  destruct (py_min_Ok (dict_values (totalSec ts))) as (m & Hmin & Hm & Hlow).
  { unfold dict_values. by destruct (totalSec ts). }
  destruct (first_with_Some m (totalSec ts) Hm)
    as (id & before & after & Hfirst & Hitems & Hbefore).
  assert ((id, m) ∈ totalSec ts) as Hid.
  { rewrite Hitems, elem_of_app. right. left. }
  assert (id ∈ dict_keys (traceFile ts)) as Hfile.
  { apply (elem_of_list_to_set (C:=gset Z)). rewrite Hkeys.
    apply elem_of_list_to_set. unfold dict_keys.
    apply list_elem_of_fmap. by exists (id, m). }
  apply dict_getitem_is_Some in Hfile as [file Hfile].
  exists file, m, id. split_and!.
  - unfold getBest. rewrite Hmin. simpl. rewrite Hfirst. simpl.
    rewrite Hfile. done.
  - by apply dict_getitem_elem_of.
  - intros k v Hkv%dict_getitem_Some. apply Hlow. unfold dict_values.
    apply list_elem_of_fmap. by exists (k, v).
  - intros k Hk%dict_getitem_Some.
    rewrite Hitems in Hk, Hsorted.
    apply elem_of_app in Hk as [Hk|Hk].
    { exfalso. apply Hbefore. unfold dict_values.
      apply list_elem_of_fmap. by exists (k, m). }
    apply elem_of_cons in Hk as [[= ->]|Hk]; [lia|].
    unfold dict_keys in Hsorted. rewrite fmap_app in Hsorted.
    apply StronglySorted_app_1_r in Hsorted. simpl in Hsorted.
    apply StronglySorted_cons in Hsorted as [Hall _].
    rewrite Forall_forall in Hall.
    assert (id < k); [|lia]. apply Hall.
    apply list_elem_of_fmap. by exists (k, m).
  - done.
Qed.

(** [getBest] raises the exception of [min] exactly on empty statistics. *)
Lemma getBest_empty ts :
  getBest ts = Raise ValueError_min_empty ↔ totalSec ts = [].
Proof.
  unfold getBest. split.
  - destruct (totalSec ts) as [|[k v] items] eqn:Hts; [done|]. simpl.
    intros Hraise. unfold or_raise, mbind, result_bind in Hraise.
    repeat case_match; congruence.
  - by intros ->.
Qed.

End select_facts.

(** ** Aggregation and selection together *)

Section best_facts.
Context {U : Type}.
Variable int_of : string → option Z.
Variable float_of : string → option U.

Lemma keys_sorted_set {V} (d : list (Z * V)) :
  list_to_set (dict_keys (sorted d)) =@{gset Z} list_to_set (dict_keys d).
Proof.
  apply set_eq. intros k. rewrite !elem_of_list_to_set.
  unfold dict_keys. by rewrite sorted_Permutation.
Qed.

(** What [processStats] returns is a WindowStats, its trace files in the
    order in which the run identifiers are first seen. *)
Lemma processStats_WindowStats stats ts :
  processStats int_of float_of stats = Ok ts →
  WindowStats ts ∧ dict_keys (traceFile ts) = first_seen (rid <$> stats).
Proof.
  intros [Hall ->]%processStats_Ok.
  destruct (collected_keys int_of float_of stats Hall) as (H1 & H2 & H3).
  pose proof (first_seen_rid_NoDup stats) as Hnd.
  unfold WindowStats. cbn [meanUtil totalSec traceFile].
  split_and!.
  - apply sorted_keys_lt. by rewrite H2.
  - apply sorted_keys_lt. by rewrite H1.
  - by rewrite H3.
  - rewrite !keys_sorted_set. by rewrite H1, H2.
  - rewrite keys_sorted_set. by rewrite H2, H3.
  - by rewrite H3.
Qed.

(** With distinct run identifiers every raw result gets an entry of its
    own, in the order of arrival. *)
Lemma collected_NoDup stats :
  Forall (fun stat => is_Some (reading int_of float_of stat)) stats →
  NoDup (rid <$> stats) →
  collected int_of float_of stats =
    TStats (utilItems int_of float_of stats)
           (secItems int_of float_of stats)
           (fileItems int_of float_of stats).
Proof.
  intros (H1 & H2 & H3)%items_keys Hnd. unfold collected.
  rewrite !dict_assign_NoDup; [done|simpl..].
  - by rewrite H3.
  - by rewrite H2.
  - by rewrite H1.
Qed.

Lemma dict_getitem_Permutation {V} (d1 d2 : list (Z * V)) k :
  NoDup (dict_keys d1) → d1 ≡ₚ d2 → dict_getitem k d1 = dict_getitem k d2.
Proof.
  intros Hnd1 Hperm.
  assert (NoDup (dict_keys d2)) as Hnd2.
  { unfold dict_keys in *. by rewrite <- Hperm. }
  destruct (dict_getitem k d1) as [v|] eqn:Hget.
  - symmetry. apply dict_getitem_elem_of; [done|].
    rewrite <- Hperm. by apply dict_getitem_Some.
  - symmetry. apply dict_getitem_None. apply dict_getitem_None in Hget.
    unfold dict_keys in *. by rewrite <- Hperm.
Qed.

Lemma conforming_Permutation stats1 stats2 :
  stats1 ≡ₚ stats2 →
  Forall (fun stat => is_Some (reading int_of float_of stat)) stats1 →
  Forall (fun stat => is_Some (reading int_of float_of stat)) stats2.
Proof.
  intros Hperm. rewrite !Forall_forall. intros Hall stat Hin.
  apply Hall. by rewrite Hperm.
Qed.

(** The order of arrival of the raw results does not show in the selection,
    when the run identifiers are distinct. *)
Lemma best_Permutation stats1 stats2 :
  NoDup (rid <$> stats1) →
  stats1 ≡ₚ stats2 →
  Forall (fun stat => is_Some (reading int_of float_of stat)) stats1 →
  best int_of float_of stats1 = best int_of float_of stats2.
Proof.
  intros Hnd1 Hperm Hall1.
  assert (NoDup (rid <$> stats2)) as Hnd2 by (by rewrite <- Hperm).
  pose proof (conforming_Permutation _ _ Hperm Hall1) as Hall2.
  unfold best. rewrite !processStats_Forall by done.
  rewrite !collected_NoDup by done. cbn [meanUtil totalSec traceFile].
  destruct (items_keys int_of float_of stats1 Hall1) as (_ & Hk2 & Hk3).
  assert (sorted (secItems int_of float_of stats1) =
          sorted (secItems int_of float_of stats2)) as Hsec.
  { apply sorted_Permutation_eq; [by rewrite Hk2|].
    unfold secItems. by rewrite Hperm. }
  unfold getBest, mbind, result_bind. cbn [totalSec traceFile].
  rewrite Hsec. destruct (py_min _) as [m|]; [|done].
  destruct (first_with _ _) as [id|]; [|done]. cbn [or_raise].
  rewrite (dict_getitem_Permutation _ (fileItems int_of float_of stats2));
    [done | by rewrite Hk3 |].
  unfold fileItems. by rewrite Hperm.
Qed.

Lemma best_Raise stats :
  Exists (fun stat => reading int_of float_of stat = None) stats →
  value_of (best int_of float_of stats) = None.
Proof.
  intros Hex. unfold best.
  by destruct (processStats_Exists int_of float_of stats Hex) as (e & -> & _).
Qed.

(** Conforming results, at least one, always have a best one. *)
Lemma best_Ok stats :
  Forall (fun stat => is_Some (reading int_of float_of stat)) stats →
  stats ≠ [] →
  ∃ r, best int_of float_of stats = Ok r.
Proof.
  intros Hall Hne. unfold best.
  pose proof (processStats_Forall int_of float_of stats Hall) as Hts.
  destruct (processStats_WindowStats _ _ Hts) as [Hwf _].
  rewrite Hts. simpl.
  edestruct (getBest_WindowStats _ Hwf) as (file & time & id & Hbest & _); [|eauto].
  cbn [totalSec]. intros Hnil.
  assert (dict_keys (sorted (totalSec (collected int_of float_of stats))) = []) as Hk
    by (by rewrite Hnil).
  destruct (collected_keys int_of float_of stats Hall) as (_ & H2 & _).
  assert (length (first_seen (rid <$> stats)) = 0%nat) as Hlen.
  { rewrite <- H2. unfold dict_keys in *.
    rewrite <- (sorted_Permutation (totalSec _)), Hk. done. }
  destruct stats as [|stat stats]; [done|].
  assert (rid stat ∈ first_seen (rid <$> stat :: stats)) as Hin.
  { apply elem_of_foldl_see. right. left. }
  destruct (first_seen _); [by apply elem_of_nil in Hin | done].
Qed.

End best_facts.

(** ** The seed chain *)

Section driver_facts.
Context {U J : Type}.
Variable int_of : string → option Z.
Variable float_of : string → option U.
Variable sep tmp : string.
Implicit Types (fs : gmap string (gmap string J)) (stats : list raw).
Implicit Types (runs : list (list raw)) (file : string).

Local Ltac io_unfold :=
  unfold mbind, mret, io_bind, io_ret, result_bind, lift, path_exists,
    json_load, json_dump, exit, or_raise in *.

(** [update] is the union in which the new bundle takes precedence. *)
Lemma dict_update_union (prev next : gmap string J) :
  dict_update prev next = next ∪ prev.
Proof.
  unfold dict_update.
  apply (map_fold_weak_ind (fun r m => r = m ∪ prev)).
  - by rewrite (left_id_L ∅ (∪)).
  - intros k v m r _ ->. by rewrite insert_union_l.
Qed.

Lemma dict_update_lookup (prev next : gmap string J) k :
  dict_update prev next !! k =
    match next !! k with Some v => Some v | None => prev !! k end.
Proof.
  rewrite dict_update_union, lookup_union.
  by destruct (next !! k), (prev !! k).
Qed.

(** A window whose selection fails stops there, the files untouched. *)
Lemma firstWindow_Raise stats fs e :
  best int_of float_of stats = Raise e →
  firstWindow int_of float_of sep tmp stats fs = (fs, Raise e).
Proof.
  unfold firstWindow, best. io_unfold.
  destruct (processStats _ _ _) as [ts|e']; [|by intros [= ->]].
  by intros ->.
Qed.

Lemma nextWindow_Raise i file stats fs e :
  best int_of float_of stats = Raise e →
  nextWindow int_of float_of sep tmp i file stats fs = (fs, Raise e).
Proof.
  unfold nextWindow, best. io_unfold.
  destruct (processStats _ _ _) as [ts|e']; [|by intros [= ->]].
  by intros ->.
Qed.

(** A window that succeeds wrote the seed of the next one. *)
Lemma firstWindow_Ok stats fs fs' file' :
  firstWindow int_of float_of sep tmp stats fs = (fs', Ok file') →
  ∃ w, winning int_of float_of fs stats = Some w ∧
       file' = winInitTrace sep tmp 1 ∧
       fs' = <[file' := w]> fs.
Proof.
  unfold firstWindow, winning, best. io_unfold.
  destruct (processStats _ _ _) as [ts|e]; [|done].
  destruct (getBest ts) as [[[bestTrace bTime] bpoint]|e]; [|done].
  destruct (fs !! bestTrace) as [w|] eqn:Hw.
  - rewrite bool_decide_eq_true_2, ?Hw by done. intros [= <- <-]. eauto.
  - rewrite bool_decide_eq_false_2; [done|]. by intros [? ?].
Qed.

Lemma nextWindow_Ok i file stats fs fs' file' :
  nextWindow int_of float_of sep tmp i file stats fs = (fs', Ok file') →
  ∃ cum w, fs !! file = Some cum ∧
           winning int_of float_of fs stats = Some w ∧
           file' = winInitTrace sep tmp (S i) ∧
           fs' = <[file' := w ∪ cum]> fs.
Proof.
  unfold nextWindow, winning, best. io_unfold.
  destruct (processStats _ _ _) as [ts|e]; [|done].
  destruct (getBest ts) as [[[bestTrace bTime] bpoint]|e]; [|done].
  destruct (fs !! file) as [cum|] eqn:Hcum.
  2:{ rewrite bool_decide_eq_false_2; [done|]. by intros [? ?]. }
  rewrite bool_decide_eq_true_2, ?Hcum by done.
  destruct (fs !! bestTrace) as [w|] eqn:Hw.
  2:{ rewrite bool_decide_eq_false_2; [done|]. by intros [? ?]. }
  rewrite bool_decide_eq_true_2, ?Hw by done.
  rewrite dict_update_union, Nat.add_1_r. intros [= <- <-]. eauto 6.
Qed.

(** The loop over two stretches of windows. *)
Lemma nextWindows_app runs1 runs2 i file fs :
  nextWindows int_of float_of sep tmp i file (runs1 ++ runs2) fs =
    match nextWindows int_of float_of sep tmp i file runs1 fs with
    | (fs1, Ok file1) =>
        nextWindows int_of float_of sep tmp (i + length runs1) file1 runs2 fs1
    | (fs1, Raise e) => (fs1, Raise e)
    end.
Proof.
  revert i file fs. induction runs1 as [|stats runs1 IH]; intros i file fs; simpl.
  - by rewrite Nat.add_0_r.
  - unfold mbind, io_bind.
    destruct (nextWindow _ _ _ _ _ _ _ _) as [fs1 [file1|e]]; [|done].
    rewrite IH. by rewrite Nat.add_succ_r.
Qed.

Lemma main_app stats0 runs1 runs2 fs :
  main int_of float_of sep tmp stats0 (runs1 ++ runs2) fs =
    match main int_of float_of sep tmp stats0 runs1 fs with
    | (fs1, Ok file1) =>
        nextWindows int_of float_of sep tmp (S (length runs1)) file1 runs2 fs1
    | (fs1, Raise e) => (fs1, Raise e)
    end.
Proof.
  unfold main, mbind, io_bind.
  destruct (firstWindow _ _ _ _ _ _) as [fs0 [file0|e]]; [|done].
  apply nextWindows_app.
Qed.

(** The seed file the loop ends with. *)
Lemma nextWindows_file runs i file fs fs' file' :
  nextWindows int_of float_of sep tmp i file runs fs = (fs', Ok file') →
  file' = match runs with
          | [] => file
          | _ => winInitTrace sep tmp (i + length runs)
          end.
Proof.
  revert i file fs. induction runs as [|stats runs IH]; intros i file fs; simpl.
  - by intros [= _ ->].
  - unfold mbind, io_bind.
    destruct (nextWindow _ _ _ _ _ _ _ _) as [fs1 [file1|e]] eqn:Hwin; [|done].
    apply nextWindow_Ok in Hwin as (_ & _ & _ & _ & -> & _).
    intros ->%IH. destruct runs; simpl; [by rewrite Nat.add_1_r|].
    f_equal. lia.
Qed.

Lemma main_file stats0 runs fs fs' file' :
  main int_of float_of sep tmp stats0 runs fs = (fs', Ok file') →
  file' = winInitTrace sep tmp (S (length runs)).
Proof.
  unfold main, mbind, io_bind.
  destruct (firstWindow _ _ _ _ _ _) as [fs0 [file0|e]] eqn:Hwin; [|done].
  apply firstWindow_Ok in Hwin as (_ & _ & -> & _).
  intros ->%nextWindows_file. by destruct runs.
Qed.

(** The seed the loop ends with is the merge of the seed it started with and
    the winning bundles, in the order of the windows. *)
Lemma nextWindows_chain runs i file fs fs' file' cum :
  nextWindows int_of float_of sep tmp i file runs fs = (fs', Ok file') →
  fs !! file = Some cum →
  fs' !! file' =
    Some (foldl (fun cum w => w ∪ cum) cum
            (winners int_of float_of sep tmp i file runs fs)) ∧
  length (winners int_of float_of sep tmp i file runs fs) = length runs.
Proof.
  revert i file fs cum.
  induction runs as [|stats runs IH]; intros i file fs cum; simpl.
  - by intros [= -> ->] ->.
  - unfold mbind, io_bind.
    destruct (nextWindow _ _ _ _ _ _ _ _) as [fs1 [file1|e]] eqn:Hwin; [|done].
    intros Hrest Hcum.
    apply nextWindow_Ok in Hwin as (cum' & w & Hcum' & -> & -> & ->).
    assert (cum' = cum) as -> by congruence.
    destruct (IH _ _ _ (w ∪ cum) Hrest) as [Hseed Hlen].
    { apply lookup_insert_eq. }
    simpl. by rewrite Hseed, Hlen.
Qed.

End driver_facts.

(** * The claims *)

Section claims.
Context {U J : Type}.
Variable int_of : string → option Z.
Variable float_of : string → option U.
Variable sep tmp : string.

(** C1. For statistics with at least one entry, [getBest] returns the run
    identifier that is the smallest among those achieving the minimum total
    time, together with that minimum and with the trace file the trace-file
    mapping assigns to that identifier: the identifier is a key of the
    statistics, its time is the returned one, and no entry has a smaller
    time. *)
Theorem getBest_minimum (ts : @tStats U) :
  WindowStats ts →
  totalSec ts ≠ [] →
  ∃ file time id,
    getBest ts = Ok (file, time, id) ∧
    dict_getitem id (totalSec ts) = Some time ∧
    (∀ k v, dict_getitem k (totalSec ts) = Some v → time ≤ v) ∧
    (∀ k, dict_getitem k (totalSec ts) = Some time → id ≤ k) ∧
    dict_getitem id (traceFile ts) = Some file.
Proof. apply getBest_WindowStats. Qed.

(** C2. A run of the main script that completes its windows: window 0 writes
    the winning trace's bundle as the seed of window 1; every later window
    [i = n+1] writes, as the seed of window [i+1], the union of the seed that
    window [i] ran with and of the winning trace's bundle of window [i], the
    winning bundle taking precedence on the keys they share; hence the last
    seed is the merge of the winning bundles in the order of the windows. *)
Theorem seed_chain (stats0 : list raw) (runs : list (list raw))
    (fs fs' : gmap string (gmap string J)) (file' : string) :
  main int_of float_of sep tmp stats0 runs fs = (fs', Ok file') →
  ∃ w0,
    winning int_of float_of fs stats0 = Some w0 ∧
    main int_of float_of sep tmp stats0 [] fs =
      (<[winInitTrace sep tmp 1 := w0]> fs, Ok (winInitTrace sep tmp 1)) ∧
    (∀ n stats, runs !! n = Some stats →
       ∃ fsn cum w,
         main int_of float_of sep tmp stats0 (take n runs) fs =
           (fsn, Ok (winInitTrace sep tmp (S n))) ∧
         fsn !! winInitTrace sep tmp (S n) = Some cum ∧
         winning int_of float_of fsn stats = Some w ∧
         main int_of float_of sep tmp stats0 (take (S n) runs) fs =
           (<[winInitTrace sep tmp (S (S n)) := w ∪ cum]> fsn,
            Ok (winInitTrace sep tmp (S (S n))))) ∧
    file' = winInitTrace sep tmp (S (length runs)) ∧
    fs' !! file' =
      Some (foldl (fun cum w => w ∪ cum) w0
              (winners int_of float_of sep tmp 1 (winInitTrace sep tmp 1) runs
                 (<[winInitTrace sep tmp 1 := w0]> fs))).
Proof.
  intros Hmain.
  destruct (firstWindow int_of float_of sep tmp stats0 fs)
    as [fs0 [file0|e]] eqn:Hfirst.
  2:{ unfold main, mbind, io_bind in Hmain. by rewrite Hfirst in Hmain. }
  pose proof Hfirst as (w0 & Hw0 & -> & ->)%firstWindow_Ok.
  exists w0. split_and!.
  - done.
  - unfold main, mbind, io_bind. by rewrite Hfirst.
  - intros n stats Hn.
    pose proof (lookup_lt_Some _ _ _ Hn) as Hlen.
    rewrite <- (take_drop (S n) runs), main_app in Hmain.
    destruct (main _ _ _ _ _ (take (S n) runs) fs) as [fsS [fileS|e]] eqn:HS;
      [clear Hmain|done].
    rewrite (take_S_r _ _ _ Hn), main_app in HS.
    destruct (main _ _ _ _ _ (take n runs) fs) as [fsn [filen|e]] eqn:Hpre;
      [|done].
    apply main_file in Hpre as Hfile.
    rewrite length_take_le in HS, Hfile by lia. subst filen.
    simpl in HS. unfold mbind, io_bind in HS.
    destruct (nextWindow _ _ _ _ _ _ _ _) as [fs1 [file1|e]] eqn:Hwin; [|done].
    apply nextWindow_Ok in Hwin as (cum & w & Hcum & Hw & -> & ->).
    injection HS as <- <-. exists fsn, cum, w. done.
  - by apply main_file in Hmain.
  - unfold main, mbind, io_bind in Hmain. rewrite Hfirst in Hmain.
    eapply nextWindows_chain; [exact Hmain|]. apply lookup_insert_eq.
Qed.

(** C3. The merge of seed bundles, [prev.update(next)], is associative:
    merging [A] and then [B] into a base is merging the bundle [A] updated
    with [B] in one step; and it is idempotent: merging [A] again into a
    result of merging [A], or into [A] itself, or into any bundle [X] that
    already holds the entries of [A], changes nothing. *)
Theorem dict_update_assoc_idem (base A B X : gmap string J) :
  dict_update (dict_update base A) B = dict_update base (dict_update A B) ∧
  dict_update (dict_update base A) A = dict_update base A ∧
  dict_update A A = A ∧
  (A ⊆ X → dict_update X A = X).
Proof.
  rewrite !dict_update_union. split_and!.
  - by rewrite (assoc_L (∪)).
  - by rewrite (assoc_L (∪)), (idemp_L (∪)).
  - by rewrite (idemp_L (∪)).
  - apply map_subseteq_union.
Qed.

(** C4. When the statistics given to [getBest] are empty, [getBest] does not
    return: it raises the exception of [min] on an empty sequence, which it
    raises in no other case. The main script does not handle it: it stops at
    that window with this exception, whether the window is the first one or
    comes after windows that completed, writes no seed for the next window
    (the files are those the window started with) and runs no later window
    (what they would return does not matter). *)
Theorem empty_stats_hard_stop (stats : list raw) (ts : @tStats U) :
  processStats int_of float_of stats = Ok ts →
  totalSec ts = [] →
  getBest ts = Raise ValueError_min_empty ∧
  (∀ ts' : @tStats U, getBest ts' = Raise ValueError_min_empty → totalSec ts' = []) ∧
  (∀ (fs : gmap string (gmap string J)) later,
     main int_of float_of sep tmp stats later fs = (fs, Raise ValueError_min_empty)) ∧
  (∀ (fs fs1 : gmap string (gmap string J)) stats0 earlier later file1,
     main int_of float_of sep tmp stats0 earlier fs = (fs1, Ok file1) →
     main int_of float_of sep tmp stats0 (earlier ++ stats :: later) fs =
       (fs1, Raise ValueError_min_empty)).
Proof.
  intros Hts Hempty.
  assert (getBest ts = Raise ValueError_min_empty) as Hbest
    by (by apply getBest_empty).
  assert (best int_of float_of stats = Raise ValueError_min_empty) as Hraise.
  { unfold best. by rewrite Hts. }
  split_and!.
  - done.
  - intros ts'. apply getBest_empty.
  - intros fs later. unfold main, mbind, io_bind.
    by rewrite (firstWindow_Raise _ _ _ _ _ _ _ Hraise).
  - intros fs fs1 stats0 earlier later file1 Hearlier.
    rewrite main_app, Hearlier. simpl. unfold mbind, io_bind.
    by rewrite (nextWindow_Raise _ _ _ _ _ _ _ _ _ Hraise).
Qed.

End claims.

Section claims_aggregation.
Context {U : Type}.
Variable int_of : string → option Z.
Variable float_of : string → option U.

Lemma dict_getitem_sorted {V} (d : list (Z * V)) k v :
  NoDup (dict_keys d) → dict_getitem k (sorted d) = Some v ↔ (k, v) ∈ d.
Proof.
  intros Hnd. rewrite <- (sorted_Permutation d) at 2. split.
  - apply dict_getitem_Some.
  - apply dict_getitem_elem_of. by apply sorted_keys_NoDup.
Qed.

(** The selection, in terms of what the raw results report. *)
Lemma best_spec stats :
  Forall (fun stat => is_Some (reading int_of float_of stat)) stats →
  NoDup (rid <$> stats) →
  stats ≠ [] →
  ∃ file time id,
    best int_of float_of stats = Ok (file, time, id) ∧
    (id, time) ∈ secItems int_of float_of stats ∧
    (id, file) ∈ fileItems int_of float_of stats ∧
    ∀ k v, (k, v) ∈ secItems int_of float_of stats → time ≤ v ∧ (v = time → id ≤ k).
Proof.
  intros Hall Hnd Hne.
  destruct (best_Ok int_of float_of stats Hall Hne) as [[[file time] id] Hbest].
  exists file, time, id. split; [done|].
  unfold best in Hbest.
  pose proof (processStats_Forall int_of float_of stats Hall) as Hts.
  destruct (processStats_WindowStats _ _ _ _ Hts) as [Hwf _].
  rewrite Hts in Hbest. unfold mbind, result_bind in Hbest.
  destruct (getBest_WindowStats _ Hwf) as (f & t & i & Hb & Hid & Hlow & Hfirst & Hfile).
  { intros Hnil%getBest_empty. congruence. }
  rewrite Hb in Hbest. injection Hbest as -> -> ->.
  rewrite collected_NoDup in Hid, Hlow, Hfirst, Hfile by done.
  cbn [totalSec traceFile] in *.
  destruct (items_keys int_of float_of stats Hall) as (_ & Hk2 & Hk3).
  assert (NoDup (dict_keys (secItems int_of float_of stats))) as Hnd2
    by (by rewrite Hk2).
  split_and!.
  - by apply dict_getitem_sorted in Hid.
  - by apply dict_getitem_Some.
  - intros k v Hkv%(dict_getitem_sorted _ _ _ Hnd2). split.
    + by apply (Hlow k).
    + intros ->. by apply Hfirst.
Qed.

(** C5. Aggregation followed by selection does not depend on the order in
    which the raw results of a batch, with its distinct run identifiers, were
    collected: two orderings of the same raw results give the same trace
    file, time and run identifier, or fail both. When the results conform,
    the run returned for both is the one of minimum total time, and among
    the runs sharing the minimum the one with the smallest identifier. *)
Theorem best_order_independent (stats1 stats2 : list raw) :
  NoDup (rid <$> stats1) →
  stats1 ≡ₚ stats2 →
  value_of (best int_of float_of stats1) = value_of (best int_of float_of stats2) ∧
  (Forall (fun stat => is_Some (reading int_of float_of stat)) stats1 →
   stats1 ≠ [] →
   ∃ file time id,
     best int_of float_of stats1 = Ok (file, time, id) ∧
     best int_of float_of stats2 = Ok (file, time, id) ∧
     (id, time) ∈ secItems int_of float_of stats1 ∧
     ∀ k v, (k, v) ∈ secItems int_of float_of stats1 →
            time ≤ v ∧ (v = time → id ≤ k)).
Proof.
  intros Hnd Hperm. split.
  - destruct (conforming_or_not int_of float_of stats1) as [Hall|Hex].
    + by rewrite (best_Permutation _ _ _ _ Hnd Hperm Hall).
    + rewrite !best_Raise; [done| |done].
      rewrite Exists_exists in *. destruct Hex as (stat & Hin & Hr).
      exists stat. by rewrite <- Hperm.
  - intros Hall Hne.
    destruct (best_spec stats1 Hall Hnd Hne) as (file & time & id & Hb & Hid & _ & Hmin).
    exists file, time, id. split_and!; [done| |done..].
    by rewrite <- (best_Permutation _ _ _ _ Hnd Hperm Hall).
Qed.

(** C6, as the code has it. The total-time and mean-utilization mappings
    returned by [processStats] are ordered by run identifier ascending; the
    trace-file mapping is not sorted: its keys come in the order in which the
    run identifiers first appear in the raw results. *)
Theorem processStats_order (stats : list raw) (ts : @tStats U) :
  processStats int_of float_of stats = Ok ts →
  StronglySorted Z.lt (dict_keys (totalSec ts)) ∧
  StronglySorted Z.lt (dict_keys (meanUtil ts)) ∧
  dict_keys (traceFile ts) = first_seen (rid <$> stats).
Proof.
  intros [(Hsec & Hutil & _) Hfile]%processStats_WindowStats. done.
Qed.

(** C7. The three mappings returned by [processStats] have the same key
    set. *)
Theorem processStats_same_keys (stats : list raw) (ts : @tStats U) :
  processStats int_of float_of stats = Ok ts →
  list_to_set (dict_keys (meanUtil ts)) =@{gset Z} list_to_set (dict_keys (totalSec ts)) ∧
  list_to_set (dict_keys (traceFile ts)) =@{gset Z} list_to_set (dict_keys (totalSec ts)).
Proof.
  intros [(_ & _ & _ & Hutil & Hfile) _]%processStats_WindowStats. done.
Qed.

(** C8, as the code has it. A raw result whose captured output does not
    conform (fewer than three tokens, a second token that [int] rejects or a
    third that [float] rejects) is neither tagged nor excluded: it makes
    [processStats] raise [IndexError] or [ValueError], and no statistics are
    returned for the window. *)
Theorem processStats_nonconforming_raises (stats : list raw) :
  Exists (fun stat => reading int_of float_of stat = None) stats →
  ∃ e, processStats int_of float_of stats = Raise e ∧ parse_error e.
Proof. apply processStats_Exists. Qed.

(** C10. On an empty collection of raw results [processStats] does not
    fail: it returns three empty mappings; the failure comes afterwards, from
    [getBest] on these statistics. *)
Theorem processStats_empty :
  processStats int_of float_of [] = Ok (TStats [] [] []) ∧
  getBest (U:=U) (TStats [] [] []) = Raise ValueError_min_empty.
Proof. done. Qed.

End claims_aggregation.

(** * The claims on the scenarios of the specification *)

(** The statistics of the three runs: run 1 is selected, with time 17. *)
Lemma getBest_minimum_witness :
  WindowStats three_runs_stats ∧
  totalSec three_runs_stats ≠ [] ∧
  ∃ file time id,
    getBest three_runs_stats = Ok (file, time, id) ∧
    dict_getitem id (totalSec three_runs_stats) = Some time ∧
    (∀ k v, dict_getitem k (totalSec three_runs_stats) = Some v → time ≤ v) ∧
    (∀ k, dict_getitem k (totalSec three_runs_stats) = Some time → id ≤ k) ∧
    dict_getitem id (traceFile three_runs_stats) = Some file.
Proof.
  assert (WindowStats three_runs_stats) as Hwf.
  { unfold WindowStats, three_runs_stats, dict_keys. simpl.
    split_and!.
    - repeat constructor; lia.
    - repeat constructor; lia.
    - refine (bool_decide_unpack _ _). by vm_compute.
    - by vm_compute.
    - by vm_compute. }
  assert (totalSec three_runs_stats ≠ []) as Hne by done.
  split_and!; [done..|]. exact (getBest_minimum three_runs_stats Hwf Hne).
Defined.

Example getBest_three_runs : getBest three_runs_stats = Ok ("p1.json", 17, 1).
Proof. reflexivity. Qed.

(** The two windows: the seed of window 2 is [{"j1": "A", "j2": "B"}]. *)
Lemma seed_chain_witness :
  ∃ fs' file',
    main int_literal float_literal "/" "run/tmp" window0 [window1] two_windows_files
      = (fs', Ok file') ∧
    file' = "run/tmp/winInitTrace_2.json" ∧
    fs' !! "run/tmp/winInitTrace_1.json" = Some {["j1" := "A"]} ∧
    fs' !! file' = Some (<["j1" := "A"]> {["j2" := "B"]}).
Proof.
  destruct (main int_literal float_literal "/" "run/tmp" window0 [window1]
              two_windows_files) as [fs' [file'|e]] eqn:Hmain;
    [|by vm_compute in Hmain].
  exists fs', file'. split; [done|].
  destruct (seed_chain int_literal float_literal "/" "run/tmp" _ _ _ _ _ Hmain)
    as (w0 & Hw0 & _ & _ & -> & Hseed).
  vm_compute in Hw0. injection Hw0 as <-.
  rewrite Hseed. vm_compute in Hmain. injection Hmain as <-.
  split_and!; by vm_compute.
Defined.

(** A run in which window 1 returns no raw result: the main script stops
    there with the exception of [min], the seed of window 1 being the last
    one written. *)
Lemma empty_stats_hard_stop_witness :
  processStats int_literal float_literal [] = Ok (TStats [] [] []) ∧
  totalSec (TStats (U:=Q) [] [] []) = [] ∧
  main int_literal float_literal "/" "run/tmp" window0 [[]; window1] two_windows_files =
    (<["run/tmp/winInitTrace_1.json" := {["j1" := "A"]}]> two_windows_files,
     Raise ValueError_min_empty).
Proof.
  split_and!; [done..|].
  destruct (empty_stats_hard_stop (J:=string) int_literal float_literal
              "/" "run/tmp" [] (TStats [] [] []) eq_refl eq_refl)
    as (_ & _ & _ & Hstop).
  apply (Hstop two_windows_files _ window0 [] [window1] "run/tmp/winInitTrace_1.json").
  by vm_compute.
Defined.

(** The three runs in two orders of arrival: run 1, time 17, both times. *)
Lemma best_order_independent_witness :
  NoDup (rid <$> three_runs) ∧
  three_runs ≡ₚ three_runs_late ∧
  best int_literal float_literal three_runs = Ok ("p1.json", 17, 1) ∧
  value_of (best int_literal float_literal three_runs_late) = Some ("p1.json", 17, 1).
Proof.
  assert (NoDup (rid <$> three_runs)) as Hnd.
  { refine (bool_decide_unpack _ _). by vm_compute. }
  assert (three_runs ≡ₚ three_runs_late) as Hperm.
  { unfold three_runs, three_runs_late. symmetry.
    apply (Permutation_cons_append [_; _]). }
  split_and!; [done..|].
  destruct (best_order_independent int_literal float_literal _ _ Hnd Hperm)
    as [<- _].
  done.
Defined.

Example three_runs_any_order (stats : list raw) :
  three_runs ≡ₚ stats →
  best int_literal float_literal stats = Ok ("p1.json", 17, 1).
Proof.
  intros Hperm. rewrite <- (best_Permutation _ _ three_runs stats); [done| |done|].
  - refine (bool_decide_unpack _ _). by vm_compute.
  - unfold three_runs.
    repeat (apply Forall_cons; split; [eexists; reflexivity|]). apply Forall_nil_2.
Qed.

(** The three runs, arrived in the order 2, 0, 1: the trace-file mapping
    keeps this order. *)
Lemma processStats_order_counterexample :
  ∃ ts, processStats int_literal float_literal three_runs_late = Ok ts ∧
        dict_keys (traceFile ts) = [2; 0; 1] ∧
        ¬ Sorted Z.le (dict_keys (traceFile ts)).
Proof.
  eexists. split_and!; [by vm_compute..|]. simpl.
  intros Hsorted. apply Sorted_inv in Hsorted as [_ Hhd].
  apply HdRel_inv in Hhd. lia.
Qed.

Lemma processStats_order_witness :
  ∃ ts, processStats int_literal float_literal three_runs_late = Ok ts ∧
        StronglySorted Z.lt (dict_keys (totalSec ts)) ∧
        StronglySorted Z.lt (dict_keys (meanUtil ts)) ∧
        dict_keys (traceFile ts) = first_seen (rid <$> three_runs_late).
Proof.
  destruct (processStats int_literal float_literal three_runs_late)
    as [ts|e] eqn:Hts; [|by vm_compute in Hts].
  exists ts. split; [done|].
  exact (processStats_order int_literal float_literal _ _ Hts).
Defined.

Lemma processStats_same_keys_witness :
  ∃ ts, processStats int_literal float_literal three_runs_late = Ok ts ∧
        list_to_set (dict_keys (meanUtil ts)) =@{gset Z}
          list_to_set (dict_keys (totalSec ts)) ∧
        list_to_set (dict_keys (traceFile ts)) =@{gset Z}
          list_to_set (dict_keys (totalSec ts)).
Proof.
  destruct (processStats int_literal float_literal three_runs_late)
    as [ts|e] eqn:Hts; [|by vm_compute in Hts].
  exists ts. split; [done|].
  exact (processStats_same_keys int_literal float_literal _ _ Hts).
Defined.

(** The window in which run 1 printed two tokens only: the aggregation
    raises at [stat[1][2]], and there are no statistics, with or without
    run 1. *)
Lemma processStats_nonconforming_counterexample :
  processStats int_literal float_literal short_output = Raise IndexError ∧
  ¬ ∃ ts, processStats int_literal float_literal short_output = Ok ts.
Proof.
  assert (processStats int_literal float_literal short_output = Raise IndexError)
    as Hraise by (by vm_compute).
  split; [done|]. intros [ts Hts]. congruence.
Qed.

Lemma processStats_nonconforming_raises_witness :
  Exists (fun stat => reading int_literal float_literal stat = None) short_output ∧
  ∃ e, processStats int_literal float_literal short_output = Raise e ∧
       parse_error e.
Proof.
  assert (Exists (fun stat => reading int_literal float_literal stat = None)
            short_output) as Hex.
  { unfold short_output. apply Exists_cons_tl, Exists_cons_hd. by vm_compute. }
  split; [done|].
  exact (processStats_nonconforming_raises int_literal float_literal _ Hex).
Defined.

(** The bundles of the two windows, merged. *)
Example dict_update_two_windows :
  dict_update (dict_update ∅ {["j1" := "A"]}) {["j2" := "B"]}
    = <["j1" := "A"]> ({["j2" := "B"]} : gmap string string).
Proof. by vm_compute. Qed.

(** * Further properties of the code *)

(** ** The selector on arbitrary statistics *)

Section select_more.
Context {U : Type}.
Implicit Types ts : @tStats U.

(** Whatever the order of its keys, and whether or not the trace-file
    mapping knows them, [getBest] on non-empty statistics selects the first
    entry, in iteration order, that has the minimum total time: every entry
    before it has a larger time. It returns it with the trace file of its key,
    or raises [KeyError] with that key when the trace-file mapping lacks it. *)
Theorem getBest_first_in_order ts :
  totalSec ts ≠ [] →
  ∃ before id time after,
    totalSec ts = before ++ (id, time) :: after ∧
    (∀ k v, (k, v) ∈ totalSec ts → time ≤ v) ∧
    (∀ k v, (k, v) ∈ before → time < v) ∧
    getBest ts =
      match dict_getitem id (traceFile ts) with
      | Some file => Ok (file, time, id)
      | None => Raise (KeyError id)
      end.
Proof.
  intros Hne.
  destruct (py_min_Ok (dict_values (totalSec ts))) as (m & Hmin & Hm & Hlow).
  { unfold dict_values. by destruct (totalSec ts). }
  destruct (first_with_Some m (totalSec ts) Hm)
    as (id & before & after & Hfirst & Hitems & Hbefore).
  assert (∀ k v, (k, v) ∈ totalSec ts → m ≤ v) as Hall.
  { intros k v Hkv. apply Hlow. unfold dict_values.
    apply list_elem_of_fmap. by exists (k, v). }
  exists before, id, m, after. split_and!; [done..| |].
  - intros k v Hkv. assert (v ≠ m) as Hneq.
    { intros ->. apply Hbefore. unfold dict_values.
      apply list_elem_of_fmap. by exists (k, m). }
    assert (m ≤ v); [|lia]. apply (Hall k). rewrite Hitems, elem_of_app. by left.
  - unfold getBest. rewrite Hmin. simpl. rewrite Hfirst. simpl.
    by destruct (dict_getitem id (traceFile ts)).
Qed.

End select_more.

(** ** What the aggregator records *)

Section process_more.
Context {U : Type}.
Variable int_of : string → option Z.
Variable float_of : string → option U.

Lemma dict_getitem_app {K V} `{EqDecision K} (d1 d2 : list (K * V)) k :
  dict_getitem k (d1 ++ d2) =
    match dict_getitem k d1 with
    | Some v => Some v
    | None => dict_getitem k d2
    end.
Proof.
  induction d1 as [|[k1 v1] d1 IH]; simpl; [done|]. by case_decide.
Qed.

(** Reading a key after a series of assignments: the last assignment to the
    key, if there is one. *)
Lemma dict_getitem_assign {K V} `{EqDecision K} (d items : list (K * V)) k :
  dict_getitem k (dict_assign d items) =
    match dict_getitem k (reverse items) with
    | Some v => Some v
    | None => dict_getitem k d
    end.
Proof.
  unfold dict_assign. revert d.
  induction items as [|[k1 v1] items IH]; intros d; simpl; [done|].
  rewrite IH, reverse_cons, dict_getitem_app, dict_getitem_setitem. simpl.
  destruct (dict_getitem k (reverse items)); [done|]. by case_decide.
Qed.

Lemma dict_getitem_sorted_NoDup {V} (d : list (Z * V)) k :
  NoDup (dict_keys d) → dict_getitem k (sorted d) = dict_getitem k d.
Proof.
  intros Hnd. apply dict_getitem_Permutation.
  - by apply sorted_keys_NoDup.
  - apply sorted_Permutation.
Qed.

(** The items that one component of the readings contributes. *)
Lemma dict_getitem_items {V} (f : string * Z * U → V) stats k :
  Forall (fun stat => is_Some (reading int_of float_of stat)) stats →
  dict_getitem k
    (reverse (omap (fun stat => r ← reading int_of float_of stat;
                                Some (rid stat, f r)) stats)) =
    f <$> last_reading int_of float_of k stats.
Proof.
  unfold last_reading.
  induction stats as [|stat stats IH] using rev_ind; [done|].
  intros [Hall [r Hr]%Forall_singleton]%Forall_app.
  rewrite omap_app, reverse_app, filter_app. simpl. rewrite Hr. simpl.
  rewrite filter_cons, filter_nil.
  destruct (decide (rid stat = k)) as [Heq|Hne].
  - rewrite last_snoc. simpl. by rewrite Hr.
  - rewrite app_nil_r. by apply IH.
Qed.

Lemma processStats_getitem stats ts k :
  processStats int_of float_of stats = Ok ts →
  dict_getitem k (totalSec ts) = (fun r => r.1.2) <$> last_reading int_of float_of k stats ∧
  dict_getitem k (meanUtil ts) = snd <$> last_reading int_of float_of k stats ∧
  dict_getitem k (traceFile ts) = (fun r => r.1.1) <$> last_reading int_of float_of k stats.
Proof.
  intros [Hall ->]%processStats_Ok.
  destruct (collected_keys int_of float_of stats Hall) as (H1 & H2 & _).
  pose proof (first_seen_rid_NoDup stats) as Hnd.
  cbn [meanUtil totalSec traceFile].
  rewrite !dict_getitem_sorted_NoDup by (by rewrite ?H1, ?H2).
  unfold collected. cbn [meanUtil totalSec traceFile].
  rewrite !dict_getitem_assign. simpl.
  split_and!.
  - rewrite <- (dict_getitem_items (fun r => r.1.2) stats k Hall).
    unfold secItems. by destruct (dict_getitem k _).
  - rewrite <- (dict_getitem_items snd stats k Hall).
    unfold utilItems. by destruct (dict_getitem k _).
  - rewrite <- (dict_getitem_items (fun r => r.1.1) stats k Hall).
    unfold fileItems. by destruct (dict_getitem k _).
Qed.

(** Each mapping returned by [processStats] holds, under a run identifier,
    what the last raw result with this identifier reports (its total time, its
    mean utilization, its first token), and nothing under an identifier that
    no raw result has. *)
Theorem processStats_lookup (stats : list raw) (ts : @tStats U) (k : Z) :
  processStats int_of float_of stats = Ok ts →
  dict_getitem k (totalSec ts) = (fun r => r.1.2) <$> last_reading int_of float_of k stats ∧
  dict_getitem k (meanUtil ts) = snd <$> last_reading int_of float_of k stats ∧
  dict_getitem k (traceFile ts) = (fun r => r.1.1) <$> last_reading int_of float_of k stats.
Proof. apply processStats_getitem. Qed.

(** With distinct run identifiers each mapping has exactly one entry per raw
    result. *)
Theorem processStats_one_entry_each (stats : list raw) (ts : @tStats U) :
  processStats int_of float_of stats = Ok ts →
  NoDup (rid <$> stats) →
  length (totalSec ts) = length stats ∧
  length (meanUtil ts) = length stats ∧
  length (traceFile ts) = length stats.
Proof.
  intros Hts Hnd.
  destruct (processStats_WindowStats _ _ _ _ Hts) as [(Hsec & _ & _ & Hutil & Hfile) Hkeys].
  apply processStats_Ok in Hts as [Hall ->].
  destruct (collected_keys int_of float_of stats Hall) as (H1 & H2 & H3).
  rewrite first_seen_NoDup in H1, H2, H3 by done.
  cbn [meanUtil totalSec traceFile]. unfold dict_keys in *.
  rewrite !(Permutation_length (sorted_Permutation _)).
  rewrite <- (length_fmap fst (totalSec _)), H2.
  rewrite <- (length_fmap fst (meanUtil _)), H1.
  rewrite <- (length_fmap fst (traceFile _)), H3.
  by rewrite length_fmap.
Qed.

(** The errors of aggregation followed by selection: the exception of [min]
    on an empty collection of raw results, and otherwise the [IndexError] or
    [ValueError] of a raw result that does not conform; statistics that
    [processStats] returned never make [getBest] raise [KeyError]. *)
Lemma best_errors stats e :
  best int_of float_of stats = Raise e →
  (stats = [] ∧ e = ValueError_min_empty) ∨
  (Exists (fun stat => reading int_of float_of stat = None) stats ∧ parse_error e).
Proof.
  intros Hraise. destruct (conforming_or_not int_of float_of stats) as [Hall|Hex].
  - destruct stats as [|stat stats].
    + left. split; [done|]. by injection Hraise as <-.
    + destruct (best_Ok int_of float_of (stat :: stats) Hall) as [r Hr]; [done|].
      congruence.
  - right. split; [done|].
    destruct (processStats_Exists int_of float_of stats Hex) as (e' & He' & Hpe).
    unfold best in Hraise. rewrite He' in Hraise. by injection Hraise as <-.
Qed.

Theorem best_failures (stats : list raw) (e : exn) :
  best int_of float_of stats = Raise e →
  (stats = [] ∧ e = ValueError_min_empty) ∨
  (Exists (fun stat => reading int_of float_of stat = None) stats ∧ parse_error e).
Proof. apply best_errors. Qed.

(** The triple that aggregation and selection return is that of one raw
    result: the run with the returned identifier printed the returned trace
    file as its first token and the returned total time as its second. *)
Theorem best_is_a_run (stats : list raw) (file : string) (time id : Z) :
  best int_of float_of stats = Ok (file, time, id) →
  ∃ stat util,
    stat ∈ stats ∧ rid stat = id ∧
    reading int_of float_of stat = Some (file, time, util).
Proof.
  unfold best. destruct (processStats int_of float_of stats) as [ts|e] eqn:Hts; [|done].
  unfold mbind, result_bind. intros Hbest.
  destruct (processStats_getitem stats ts id Hts) as (Hsec & _ & Hfile).
  destruct (decide (totalSec ts = [])) as [Hnil|Hne].
  { apply getBest_empty in Hnil. congruence. }
  destruct (processStats_WindowStats _ _ _ _ Hts) as [Hwf _].
  destruct (getBest_WindowStats ts Hwf Hne) as (f & t & i & Hb & Hid & _ & _ & Hf).
  rewrite Hb in Hbest. injection Hbest as -> -> ->.
  rewrite Hsec in Hid. rewrite Hfile in Hf. unfold last_reading in *.
  destruct (last (filter _ stats)) as [stat|] eqn:Hlast; [|done].
  apply last_Some_elem_of in Hlast.
  apply list_elem_of_filter in Hlast as [Hrid Hin].
  simpl in Hid, Hf.
  destruct (reading int_of float_of stat) as [[[t0 sec] util]|] eqn:Hr; [|done].
  simpl in Hid, Hf. injection Hid as ->. injection Hf as ->.
  by exists stat, util.
Qed.

End process_more.

(** ** Strings *)

Lemma string_length_app (s1 s2 : string) :
  String.length (s1 +:+ s2) = (String.length s1 + String.length s2)%nat.
Proof. induction s1 as [|a s1 IH]; simpl; [done|]. by rewrite IH. Qed.

Lemma string_app_inv_tail (s1 s2 t : string) : s1 +:+ t = s2 +:+ t → s1 = s2.
Proof.
  revert s2. induction s1 as [|a s1 IH]; intros [|b s2] Heq; simpl in Heq.
  - done.
  - apply (f_equal String.length) in Heq.
    rewrite ?string_length_app in Heq. simpl in Heq.
    rewrite ?string_length_app in Heq. lia.
  - apply (f_equal String.length) in Heq.
    rewrite ?string_length_app in Heq. simpl in Heq.
    rewrite ?string_length_app in Heq. lia.
  - injection Heq as -> Heq. f_equal. by apply IH.
Qed.

(** ** The files of a run *)

Section driver_more.
Context {U J : Type}.
Variable int_of : string → option Z.
Variable float_of : string → option U.
Variable sep tmp : string.
Implicit Types (fs : gmap string (gmap string J)) (stats : list raw).
Implicit Types (runs : list (list raw)) (file : string).

(** The seed files of different windows are different files. *)
Lemma winInitTrace_inj (n m : nat) :
  winInitTrace sep tmp n = winInitTrace sep tmp m → n = m.
Proof.
  unfold winInitTrace. intros Heq.
  do 3 apply (inj (String.app _)) in Heq.
  apply string_app_inv_tail in Heq. by apply (inj pretty).
Qed.

Lemma winInitTrace_nonempty (n : nat) : winInitTrace sep tmp n ≠ "".
Proof.
  unfold winInitTrace. intros Heq. apply (f_equal String.length) in Heq.
  rewrite !string_length_app in Heq. simpl in Heq. lia.
Qed.

(** Every outcome of the two kinds of window. *)
Lemma firstWindow_spec stats fs :
  firstWindow int_of float_of sep tmp stats fs =
    match best int_of float_of stats with
    | Raise e => (fs, Raise e)
    | Ok (bestTrace, _, _) =>
        match fs !! bestTrace with
        | None => (fs, Raise (SystemExit (-2)))
        | Some w =>
            (<[winInitTrace sep tmp 1 := w]> fs, Ok (winInitTrace sep tmp 1))
        end
    end.
Proof.
  unfold firstWindow, best, mbind, mret, io_bind, io_ret, result_bind, lift,
    path_exists, json_load, json_dump, exit, or_raise.
  destruct (processStats _ _ _) as [ts|e]; [|done].
  destruct (getBest ts) as [[[bestTrace bTime] bpoint]|e]; [|done].
  destruct (fs !! bestTrace) as [w|] eqn:Hw.
  - rewrite bool_decide_eq_true_2 by done. by rewrite Hw.
  - rewrite bool_decide_eq_false_2; [done|]. by intros [? ?].
Qed.

Lemma nextWindow_spec i file stats fs :
  nextWindow int_of float_of sep tmp i file stats fs =
    match best int_of float_of stats with
    | Raise e => (fs, Raise e)
    | Ok (bestTrace, _, _) =>
        match fs !! file with
        | None => (fs, Raise (SystemExit (-1)))
        | Some cum =>
            match fs !! bestTrace with
            | None => (fs, Raise (SystemExit (-2)))
            | Some w =>
                (<[winInitTrace sep tmp (S i) := w ∪ cum]> fs,
                 Ok (winInitTrace sep tmp (S i)))
            end
        end
    end.
Proof.
  unfold nextWindow, best, mbind, mret, io_bind, io_ret, result_bind, lift,
    path_exists, json_load, json_dump, exit, or_raise.
  destruct (processStats _ _ _) as [ts|e]; [|done].
  destruct (getBest ts) as [[[bestTrace bTime] bpoint]|e]; [|done].
  destruct (fs !! file) as [cum|] eqn:Hcum.
  2:{ rewrite bool_decide_eq_false_2; [done|]. by intros [? ?]. }
  rewrite bool_decide_eq_true_2, ?Hcum by done.
  destruct (fs !! bestTrace) as [w|] eqn:Hw.
  2:{ rewrite bool_decide_eq_false_2; [done|]. by intros [? ?]. }
  rewrite bool_decide_eq_true_2, ?Hw by done.
  by rewrite dict_update_union, Nat.add_1_r.
Qed.




(** The loop writes the seed files of its windows and nothing else. *)
Lemma nextWindows_frame runs i file fs fs' r path :
  nextWindows int_of float_of sep tmp i file runs fs = (fs', r) →
  (∀ n, (i < n ≤ i + length runs)%nat → path ≠ winInitTrace sep tmp n) →
  fs' !! path = fs !! path.
Proof.
  revert i file fs. induction runs as [|stats runs IH]; intros i file fs; simpl.
  - by intros [= <- <-].
  - unfold mbind, io_bind. rewrite nextWindow_spec.
    intros Hrun Hpath.
    assert (∀ fs1 file1,
      nextWindows int_of float_of sep tmp (S i) file1 runs fs1 = (fs', r) →
      fs' !! path = fs1 !! path) as Hrest.
    { intros fs1 file1 Hrest. apply (IH _ _ _ Hrest).
      intros n Hn. apply Hpath. lia. }
    destruct (best int_of float_of stats) as [[[bestTrace bTime] bpoint]|e];
      [|by injection Hrun as <- <-].
    destruct (fs !! file) as [cum|]; [|by injection Hrun as <- <-].
    destruct (fs !! bestTrace) as [w|]; [|by injection Hrun as <- <-].
    rewrite (Hrest _ _ Hrun). apply lookup_insert_ne.
    intros Heq. apply (Hpath (S i)); [lia|done].
Qed.




(** Whether it completes or raises, a run changes no file but the seed
    files of the windows 1 to [nrWindows]. *)
Theorem main_writes_seeds_only (stats0 : list raw) (runs : list (list raw))
    (fs fs' : gmap string (gmap string J)) (r : result string) (path : string) :
  main int_of float_of sep tmp stats0 runs fs = (fs', r) →
  (∀ n, (1 ≤ n ≤ S (length runs))%nat → path ≠ winInitTrace sep tmp n) →
  fs' !! path = fs !! path.
Proof.
  unfold main, mbind, io_bind. rewrite firstWindow_spec. intros Hrun Hpath.
  destruct (best int_of float_of stats0) as [[[bestTrace bTime] bpoint]|e];
    [|by injection Hrun as <- <-].
  destruct (fs !! bestTrace) as [w|]; [|by injection Hrun as <- <-].
  rewrite (nextWindows_frame _ _ _ _ _ _ path Hrun).
  - apply lookup_insert_ne. intros Heq. apply (Hpath 1%nat); [lia|done].
  - intros n Hn. apply Hpath. lia.
Qed.

(** No window overwrites the seed of an earlier one: at the end of a run
    that completes, the seed file of every window still holds what was
    written for that window. *)
Theorem main_keeps_seeds (stats0 : list raw) (runs : list (list raw))
    (fs fs' fsn : gmap string (gmap string J)) (file' : string) (n : nat) :
  main int_of float_of sep tmp stats0 runs fs = (fs', Ok file') →
  (n ≤ length runs)%nat →
  main int_of float_of sep tmp stats0 (take n runs) fs =
    (fsn, Ok (winInitTrace sep tmp (S n))) →
  fs' !! winInitTrace sep tmp (S n) = fsn !! winInitTrace sep tmp (S n).
Proof.
  intros Hmain Hn Hpre.
  rewrite <- (take_drop n runs), main_app, Hpre in Hmain.
  rewrite length_take_le in Hmain by done.
  apply (nextWindows_frame _ _ _ _ _ _ _ Hmain).
  intros m Hm Heq%winInitTrace_inj. lia.
Qed.

End driver_more.

(** ** The tasks and the commands of a window *)

Section startSim_facts.
Variable path_join : string → string → string.
Variable executable : string.

Lemma startSim_loop_imap runDir winInitTrace pathResults id traces :
  startSim_loop path_join runDir winInitTrace pathResults id traces =
    imap (fun n trace =>
            Task (path_join runDir trace) winInitTrace (id + Z.of_nat n) pathResults)
         traces.
Proof.
  revert id. induction traces as [|trace traces IH]; intros id; simpl; [done|].
  rewrite Z.add_0_r, IH. f_equal. apply imap_ext. intros n t _. simpl.
  f_equal. lia.
Qed.

(** [startSim] submits one task per trace, in the order of the traces; the
    task of the [n]-th trace, counted from 0, has the run identifier [n], so
    that the identifiers of a window are 0 to N-1, each used once; every task
    carries the seed file and the results directory of the window. *)
Theorem startSim_tasks_ids (runDir winInitTrace pathResults : string)
    (traces : list string) :
  length (startSim_tasks path_join runDir traces winInitTrace pathResults)
    = length traces ∧
  tid <$> startSim_tasks path_join runDir traces winInitTrace pathResults
    = Z.of_nat <$> seq 0 (length traces) ∧
  NoDup (tid <$> startSim_tasks path_join runDir traces winInitTrace pathResults) ∧
  (∀ n trace, traces !! n = Some trace →
     startSim_tasks path_join runDir traces winInitTrace pathResults !! n =
       Some (Task (path_join runDir trace) winInitTrace (Z.of_nat n) pathResults)).
Proof.
  unfold startSim_tasks. rewrite startSim_loop_imap.
  assert (tid <$> imap (fun n trace =>
            Task (path_join runDir trace) winInitTrace (0 + Z.of_nat n) pathResults)
            traces = Z.of_nat <$> seq 0 (length traces)) as Hids.
  { rewrite fmap_imap. rewrite <- (imap_seq_0 traces Z.of_nat).
    apply imap_ext. intros n t _. simpl. lia. }
  split_and!.
  - apply length_imap.
  - done.
  - rewrite Hids. apply (NoDup_fmap_2 _), NoDup_seq.
  - intros n trace Hn. rewrite list_lookup_imap, Hn. simpl. do 2 f_equal.
Qed.

(** The command of a worker: in a window that runs without seed, the empty
    string of window 0, the simulator gets the trace and the results
    directory only; in a window seeded with the seed file of the main script,
    whatever its number, it gets this file after [-i]. *)
Theorem spawnProcess_exec_seed (sep tmp tracefile pathResults : string) :
  spawnProcess_exec executable tracefile "" pathResults =
    [executable; "main.py"; "-t"; tracefile; "-f"; pathResults] ∧
  (∀ n, spawnProcess_exec executable tracefile (winInitTrace sep tmp n) pathResults =
          [executable; "main.py"; "-t"; tracefile; "-f"; pathResults;
           "-i"; winInitTrace sep tmp n]).
Proof.
  split; [done|]. intros n. unfold spawnProcess_exec.
  rewrite decide_True; [done|].
  pose proof (winInitTrace_nonempty sep tmp n) as Hne.
  by destruct (winInitTrace sep tmp n).
Qed.

End startSim_facts.

(** ** The log of a window *)



(** * The further properties on the scenarios *)

Lemma getBest_first_in_order_witness :
  totalSec unsorted_stats ≠ [] ∧
  ∃ before id time after,
    totalSec unsorted_stats = before ++ (id, time) :: after ∧
    (∀ k v, (k, v) ∈ totalSec unsorted_stats → time ≤ v) ∧
    (∀ k v, (k, v) ∈ before → time < v) ∧
    getBest unsorted_stats =
      match dict_getitem id (traceFile unsorted_stats) with
      | Some file => Ok (file, time, id)
      | None => Raise (KeyError id)
      end.
Proof.
  assert (totalSec unsorted_stats ≠ []) as Hne by done.
  split; [done|]. exact (getBest_first_in_order unsorted_stats Hne).
Defined.

Example getBest_unsorted_stats : getBest unsorted_stats = Raise (KeyError 2).
Proof. reflexivity. Qed.

(** The later of two raw results with the same identifier is the one
    recorded. *)
Lemma processStats_lookup_witness :
  ∃ ts, processStats int_literal float_literal same_id_twice = Ok ts ∧
        dict_getitem 0 (totalSec ts) = Some 12 ∧
        dict_getitem 0 (traceFile ts) = Some "b.json".
Proof.
  destruct (processStats int_literal float_literal same_id_twice)
    as [ts|e] eqn:Hts; [|by vm_compute in Hts].
  exists ts. split; [done|].
  destruct (processStats_lookup int_literal float_literal _ _ 0 Hts)
    as (-> & _ & ->).
  split; by vm_compute.
Defined.

Lemma processStats_one_entry_each_witness :
  ∃ ts, processStats int_literal float_literal three_runs_late = Ok ts ∧
        NoDup (rid <$> three_runs_late) ∧
        length (totalSec ts) = 3%nat ∧
        length (meanUtil ts) = 3%nat ∧
        length (traceFile ts) = 3%nat.
Proof.
  destruct (processStats int_literal float_literal three_runs_late)
    as [ts|e] eqn:Hts; [|by vm_compute in Hts].
  assert (NoDup (rid <$> three_runs_late)) as Hnd.
  { refine (bool_decide_unpack _ _). by vm_compute. }
  destruct (processStats_one_entry_each int_literal float_literal _ _ Hts Hnd)
    as (H1 & H2 & H3).
  exists ts. split_and!; done.
Defined.

Lemma best_failures_witness :
  best int_literal float_literal short_output = Raise IndexError ∧
  ((short_output = [] ∧ IndexError = ValueError_min_empty) ∨
   (Exists (fun stat => reading int_literal float_literal stat = None) short_output ∧
    parse_error IndexError)).
Proof.
  assert (best int_literal float_literal short_output = Raise IndexError) as Hbest
    by (by vm_compute).
  split; [done|].
  exact (best_failures int_literal float_literal _ _ Hbest).
Defined.

Lemma best_is_a_run_witness :
  best int_literal float_literal three_runs_late = Ok ("p1.json", 17, 1) ∧
  ∃ stat util,
    stat ∈ three_runs_late ∧ rid stat = 1 ∧
    reading int_literal float_literal stat = Some ("p1.json", 17, util).
Proof.
  assert (best int_literal float_literal three_runs_late = Ok ("p1.json", 17, 1))
    as Hbest by (by vm_compute).
  split; [done|].
  exact (best_is_a_run int_literal float_literal _ _ _ _ Hbest).
Defined.

(** The main script on the two windows, step by step. *)
Lemma best_window0 :
  best int_literal float_literal window0 = Ok ("a.json", 10, 0).
Proof. by vm_compute. Qed.

Lemma best_window1 :
  best int_literal float_literal window1 = Ok ("b.json", 12, 0).
Proof. by vm_compute. Qed.


Lemma two_windows_files_a : two_windows_files !! "a.json" = Some {["j1" := "A"]}.
Proof. unfold two_windows_files. apply lookup_insert_eq. Qed.

Lemma two_windows_files_b : two_windows_files !! "b.json" = Some {["j2" := "B"]}.
Proof.
  unfold two_windows_files. rewrite lookup_insert_ne by done.
  apply lookup_insert_eq.
Qed.


Lemma two_windows_first :
  main int_literal float_literal "/" "run/tmp" window0 [] two_windows_files =
    (<[winInitTrace "/" "run/tmp" 1 := {["j1" := "A"]}]> two_windows_files,
     Ok (winInitTrace "/" "run/tmp" 1)).
Proof.
  unfold main, mbind, io_bind.
  by rewrite firstWindow_spec, best_window0, two_windows_files_a.
Qed.

Lemma two_windows_then (runs : list (list raw)) :
  main int_literal float_literal "/" "run/tmp" window0 runs two_windows_files =
    nextWindows int_literal float_literal "/" "run/tmp" 1 (winInitTrace "/" "run/tmp" 1)
      runs (<[winInitTrace "/" "run/tmp" 1 := {["j1" := "A"]}]> two_windows_files).
Proof.
  change runs with ([] ++ runs) at 1. by rewrite main_app, two_windows_first.
Qed.



(** The two windows leave the trace files as they were. *)
Lemma main_writes_seeds_only_witness :
  ∃ fs' r,
    main int_literal float_literal "/" "run/tmp" window0 [window1] two_windows_files
      = (fs', r) ∧
    fs' !! "a.json" = two_windows_files !! "a.json".
Proof.
  destruct (main int_literal float_literal "/" "run/tmp" window0 [window1]
              two_windows_files) as [fs' r] eqn:Hmain.
  exists fs', r. split; [done|].
  apply (main_writes_seeds_only int_literal float_literal "/" "run/tmp" _ _ _ _ _ _ Hmain).
  intros n Hn. simpl in Hn.
  assert (n = 1 ∨ n = 2)%nat as [->| ->] by lia; by vm_compute.
Defined.

(** At the end of the two windows the seed of window 1 is still the bundle
    of the trace that won window 0. *)
Lemma main_keeps_seeds_witness :
  ∃ fs' file',
    main int_literal float_literal "/" "run/tmp" window0 [window1] two_windows_files
      = (fs', Ok file') ∧
    (0 ≤ length [window1])%nat ∧
    main int_literal float_literal "/" "run/tmp" window0 (take 0 [window1])
      two_windows_files
      = (<[winInitTrace "/" "run/tmp" 1 := {["j1" := "A"]}]> two_windows_files,
         Ok (winInitTrace "/" "run/tmp" 1)) ∧
    fs' !! winInitTrace "/" "run/tmp" 1 = Some {["j1" := "A"]}.
Proof.
  destruct (main int_literal float_literal "/" "run/tmp" window0 [window1]
              two_windows_files) as [fs' [file'|e]] eqn:Hmain.
  2:{ exfalso. rewrite two_windows_then in Hmain. cbn [nextWindows] in Hmain.
      unfold mbind, io_bind in Hmain.
      rewrite nextWindow_spec, best_window1, lookup_insert_eq in Hmain.
      rewrite lookup_insert_ne in Hmain by (by vm_compute).
      by rewrite two_windows_files_b in Hmain. }
  assert (0 ≤ length [window1])%nat as Hlen by (simpl; lia).
  pose proof two_windows_first as Hpre.
  exists fs', file'. split_and!; [done..|].
  rewrite (main_keeps_seeds int_literal float_literal "/" "run/tmp" _ _ _ _ _ _ 0%nat
             Hmain Hlen Hpre).
  apply lookup_insert_eq.
Defined.
